(** * The Google route of the chat proxy: request handler and heartbeat relay

    A shallow embedding of [app/api/google.ts] (functions [handle] and
    [request]) and of the second variant of the same module kept in the
    repository (module [Part000] below).

    - JavaScript strings are [string]s.  Header values are ByteStrings, one
      character per byte; text that is written to the output stream stands for
      its UTF-8 encoding, so [TextEncoder.encode] is the identity on it.
    - The asynchronous task started by [request] is a state machine: its
      program counter records the [await] it is suspended at, and every event
      of the event loop (a timer firing, a promise settling) is one [step].
    - Every call that reaches the platform (timers, fetch, the stream writer)
      is appended to an effect log, in program order.
    - [console.log] and [console.error] calls are not modelled. *)

From Stdlib Require Import Strings.String Strings.Ascii Strings.Byte ZArith NArith DecimalString.
From stdpp Require Import gmap strings list.

(** ** JavaScript string primitives used by the route *)

Module JS.

Definition dq : string := String "034"%char EmptyString.
Definition nl : string := String "010"%char EmptyString.

(** Static pieces of the source's template literals are written with an
    apostrophe where the source has a double quote. *)
Definition unquote (c : ascii) : ascii :=
  if Ascii.eqb c "'"%char then "034"%char else c.

Fixpoint lit (s : string) : string :=
  match s with
  | EmptyString => EmptyString
  | String c t => String (unquote c) (lit t)
  end.

(** [Boolean(s)]: only the empty string is falsy. *)
Definition truthy (s : string) : bool :=
  match s with EmptyString => false | String _ _ => true end.

(** [a || b] on [string | null] operands. *)
Definition or_else (a b : option string) : option string :=
  match a with
  | Some s => if truthy s then a else b
  | None => b
  end.

(** [a ?? d] *)
Definition nullish (a : option string) (d : string) : string :=
  match a with Some s => s | None => d end.

Definition startsWith (s p : string) : bool := String.prefix p s.

Definition endsWith (s p : string) : bool :=
  String.prefix (String.rev p) (String.rev s).

(** [s.slice(0, -1)] *)
Definition slice_0_m1 (s : string) : string :=
  substring 0 (String.length s - 1) s.

Fixpoint drop (n : nat) (s : string) : string :=
  match n, s with
  | O, _ => s
  | S k, String _ t => drop k t
  | S _, EmptyString => EmptyString
  end.

Fixpoint replaceAll_go (skip : nat) (s pat rep : string) : string :=
  match s with
  | EmptyString => EmptyString
  | String c t =>
      match skip with
      | S k => replaceAll_go k t pat rep
      | O =>
          if String.prefix pat s
          then rep +:+ replaceAll_go (String.length pat - 1) t pat rep
          else String c (replaceAll_go 0 t pat rep)
      end
  end.

Fixpoint intersperse (s rep : string) : string :=
  match s with
  | EmptyString => rep
  | String c t => rep +:+ String c (intersperse t rep)
  end.

(** [s.replaceAll(pat, rep)] for a string pattern and a replacement without
    [$] patterns (the route only replaces by the empty string). *)
Definition replaceAll (s pat rep : string) : string :=
  match pat with
  | EmptyString => intersperse s rep
  | String _ _ => replaceAll_go 0 s pat rep
  end.

(** [s.replace(pat, rep)]: the first occurrence only. *)
Fixpoint replace (s pat rep : string) : string :=
  match s with
  | EmptyString => if String.prefix pat EmptyString then rep else EmptyString
  | String c t =>
      if String.prefix pat s then rep +:+ drop (String.length pat) s
      else String c (replace t pat rep)
  end.

(** White space and line terminators of ECMAScript among the characters
    U+0000 to U+00FF. *)
Definition is_space (c : ascii) : bool :=
  let n := nat_of_ascii c in
  ((9 <=? n)%nat && (n <=? 13)%nat) || (n =? 32)%nat || (n =? 160)%nat.

Fixpoint trimStart (s : string) : string :=
  match s with
  | EmptyString => EmptyString
  | String c t => if is_space c then trimStart t else s
  end.

Fixpoint trimEnd (s : string) : string :=
  match s with
  | EmptyString => EmptyString
  | String c t =>
      match trimEnd t with
      | EmptyString => if is_space c then EmptyString else String c EmptyString
      | t' => String c t'
      end
  end.

Definition trim (s : string) : string := trimEnd (trimStart s).

Definition lower (c : ascii) : ascii :=
  let n := nat_of_ascii c in
  if (65 <=? n)%nat && (n <=? 90)%nat then ascii_of_nat (n + 32) else c.

Fixpoint toLowerCase (s : string) : string :=
  match s with
  | EmptyString => EmptyString
  | String c t => String (lower c) (toLowerCase t)
  end.

(** Template-literal conversion of a non-negative integer. *)
Definition of_N (n : N) : string := NilZero.string_of_uint (N.to_uint n).

Definition hex_digit (n : N) : ascii :=
  if (n <? 10)%N then ascii_of_N (48 + n) else ascii_of_N (87 + n).

(** QuoteJSONString, character by character. *)
Definition quote_char (c : ascii) : string :=
  let n := N_of_ascii c in
  if (n =? 34)%N then "\" +:+ dq
  else if (n =? 92)%N then "\\"
  else if (n =? 8)%N then "\b"
  else if (n =? 9)%N then "\t"
  else if (n =? 10)%N then "\n"
  else if (n =? 12)%N then "\f"
  else if (n =? 13)%N then "\r"
  else if (n <? 32)%N
       then "\u00" +:+ String (hex_digit (n / 16)) (String (hex_digit (n mod 16)) EmptyString)
  else String c EmptyString.

Fixpoint quote_chars (s : string) : string :=
  match s with
  | EmptyString => EmptyString
  | String c t => quote_char c +:+ quote_chars t
  end.

Definition quote (s : string) : string := dq +:+ quote_chars s +:+ dq.

End JS.

(** ** [TextDecoder.decode(value, {stream: true})] followed by
       [TextEncoder.encode]

    The decoder is the UTF-8 decoder of the Encoding standard: it keeps the
    bytes of an unfinished sequence from one chunk to the next, replaces
    malformed input by U+FFFD and drops a byte order mark at the start of the
    stream. *)

Module Utf8.

Record Decoder := {
  code_point : N;
  bytes_seen : N;
  bytes_needed : N;
  lower_boundary : N;
  upper_boundary : N;
  bom_seen : bool
}.

(** [new TextDecoder()] *)
Definition fresh : Decoder :=
  {| code_point := 0; bytes_seen := 0; bytes_needed := 0;
     lower_boundary := 128; upper_boundary := 191; bom_seen := false |}.

Definition reset (d : Decoder) : Decoder :=
  {| code_point := 0; bytes_seen := 0; bytes_needed := 0;
     lower_boundary := 128; upper_boundary := 191; bom_seen := bom_seen d |}.

Definition expect (d : Decoder) (needed cp lo hi : N) : Decoder :=
  {| code_point := cp; bytes_seen := 0; bytes_needed := needed;
     lower_boundary := lo; upper_boundary := hi; bom_seen := bom_seen d |}.

Definition replacement : N := 65533.

(** The handler on a byte when no sequence is open. *)
Definition lead (d : Decoder) (b : N) : Decoder * list N :=
  if (b <=? 127)%N then (d, [b])
  else if (194 <=? b)%N && (b <=? 223)%N then (expect d 1 (N.land b 31) 128 191, [])
  else if (224 <=? b)%N && (b <=? 239)%N then
    (expect d 2 (N.land b 15)
       (if (b =? 224)%N then 160 else 128)
       (if (b =? 237)%N then 159 else 191), [])
  else if (240 <=? b)%N && (b <=? 244)%N then
    (expect d 3 (N.land b 7)
       (if (b =? 240)%N then 144 else 128)
       (if (b =? 244)%N then 143 else 191), [])
  else (d, [replacement]).

(** The handler on one byte; a byte that ends a sequence too early is put
    back and read again with no sequence open. *)
Definition handler (d : Decoder) (b : N) : Decoder * list N :=
  if (bytes_needed d =? 0)%N then lead d b
  else if negb ((lower_boundary d <=? b)%N && (b <=? upper_boundary d)%N) then
    let '(d', out) := lead (reset d) b in (d', replacement :: out)
  else
    let cp := N.lor (N.shiftl (code_point d) 6) (N.land b 63) in
    let seen := (bytes_seen d + 1)%N in
    if (seen =? bytes_needed d)%N then (reset d, [cp])
    else ({| code_point := cp; bytes_seen := seen; bytes_needed := bytes_needed d;
             lower_boundary := 128; upper_boundary := 191; bom_seen := bom_seen d |}, []).

Fixpoint run (d : Decoder) (bs : list byte) : Decoder * list N :=
  match bs with
  | [] => (d, [])
  | b :: rest =>
      let '(d1, out1) := handler d (Byte.to_N b) in
      let '(d2, out2) := run d1 rest in
      (d2, out1 ++ out2)
  end.

(** Serialising the decoded scalar values: the first one sets [bom_seen]
    and is dropped when it is U+FEFF. *)
Definition serialize (d : Decoder) (cps : list N) : Decoder * list N :=
  match cps with
  | [] => (d, [])
  | cp :: rest =>
      if bom_seen d then (d, cps)
      else
        let d' := {| code_point := code_point d; bytes_seen := bytes_seen d;
                     bytes_needed := bytes_needed d;
                     lower_boundary := lower_boundary d;
                     upper_boundary := upper_boundary d; bom_seen := true |} in
        (d', if (cp =? 65279)%N then rest else cps)
  end.

(** [TextEncoder.encode] of one scalar value. *)
Definition encode_cp (cp : N) : list N :=
  if (cp <=? 127)%N then [cp]
  else if (cp <=? 2047)%N then
    [N.lor 192 (N.shiftr cp 6); N.lor 128 (N.land cp 63)]
  else if (cp <=? 65535)%N then
    [N.lor 224 (N.shiftr cp 12); N.lor 128 (N.land (N.shiftr cp 6) 63);
     N.lor 128 (N.land cp 63)]
  else
    [N.lor 240 (N.shiftr cp 18); N.lor 128 (N.land (N.shiftr cp 12) 63);
     N.lor 128 (N.land (N.shiftr cp 6) 63); N.lor 128 (N.land cp 63)].

Definition encode (cps : list N) : string :=
  string_of_list_ascii (map ascii_of_N (concat (map encode_cp cps))).

(** [encoder.encode(decoder.decode(value, { stream: true }))] *)
Definition transcode (d : Decoder) (value : list byte) : Decoder * string :=
  let '(d1, cps) := run d value in
  let '(d2, out) := serialize d1 cps in
  (d2, encode out).

Definition bytes_of_string (s : string) : list byte :=
  map byte_of_ascii (list_ascii_of_string s).

Definition string_of_bytes (bs : list byte) : string :=
  string_of_list_ascii (map ascii_of_byte bs).

End Utf8.

(** ** Requests, responses and JSON bodies *)

(** The JSON bodies of the route are flat objects. *)
Inductive JsonValue :=
| JNull
| JBool (b : bool)
| JNum (n : Z)
| JStr (s : string).

Definition Json : Type := list (string * JsonValue).

(** Property access [j.name]; [None] is [undefined]. *)
Definition field (name : string) (j : Json) : option JsonValue :=
  snd <$> List.find (fun kv => String.eqb (fst kv) name) j.

Definition json_truthy (v : option JsonValue) : bool :=
  match v with
  | None | Some JNull => false
  | Some (JBool b) => b
  | Some (JNum n) => negb (n =? 0)%Z
  | Some (JStr s) => JS.truthy s
  end.

Record Request := {
  method : string;
  headers : list (string * string);
  pathname : string;
  searchParams : list (string * string);
  body : option (list byte)
}.

(** [Headers.get]: names compare without case, the values of a repeated
    header are joined, an absent header gives [null]. *)
Definition headers_get (hs : list (string * string)) (name : string) : option string :=
  match map snd (List.filter
                   (fun kv => String.eqb (JS.toLowerCase (fst kv)) (JS.toLowerCase name)) hs) with
  | [] => None
  | vs => Some (String.concat ", " vs)
  end.

(** [URLSearchParams.get]: the first value of the name, or [null]. *)
Definition searchParams_get (ps : list (string * string)) (name : string) : option string :=
  snd <$> List.find (fun kv => String.eqb (fst kv) name) ps.

Inductive ResponseBody :=
| JsonBody (j : Json)
| ReadableBody.

Record Response := {
  status : N;
  responseHeaders : list (string * string);
  responseBody : ResponseBody
}.

(** [NextResponse.json(j, { status })] *)
Definition NextResponse_json (j : Json) (st : N) : Response :=
  {| status := st;
     responseHeaders := [("content-type", "application/json")];
     responseBody := JsonBody j |}.

Inductive AbortSignal := controller_signal.

Record RequestInit := {
  init_headers : list (string * string);
  init_method : string;
  init_body : option (list byte);
  redirect : string;
  duplex : string;
  signal : AbortSignal
}.

Record ServerConfig := {
  googleApiKey : option string;
  googleUrl : option string
}.

(** ** Frames written to the output stream *)

Inductive Frame :=
| SilenceKeepAlive
| RealWriteKeepAlive (writeString : string)
| TimeCost (writeString : string)
| UpstreamError (status : N) (statusText errorBody : string)
| StreamFetchError (message : string)
| Relayed (text : string)
| WaitingLine
| TextData (text : string).

(** The frames the interval callbacks write. *)
Definition is_heartbeat (f : Frame) : bool :=
  match f with
  | SilenceKeepAlive | RealWriteKeepAlive _ | WaitingLine => true
  | _ => false
  end.

(** The frames the task itself writes once the upstream has answered. *)
Definition is_spliced (f : Frame) : bool :=
  match f with
  | TimeCost _ | UpstreamError _ _ _ | StreamFetchError _ | Relayed _ => true
  | _ => false
  end.

Definition is_error (f : Frame) : bool :=
  match f with
  | UpstreamError _ _ _ | StreamFetchError _ => true
  | _ => false
  end.

(** The candidate envelope every synthetic frame of [google.ts] shares. *)
Definition envelope (text : string) : string :=
  JS.lit "data: {'candidates':[{'content':{'role':'model','parts':[{'text':'"
  +:+ text +:+
  JS.lit "'}]},'finishReason':null,'index':0,'safetyRatings':[]}],'promptFeedback':{'safetyRatings':[]}}"
  +:+ JS.nl +:+ JS.nl.

(** [JSON.stringify({ error: true, message, body }, null, 2)] *)
Definition errorEvent (st : N) (statusText errorBody : string) : string :=
  "{" +:+ JS.nl +:+
  JS.lit "  'error': true," +:+ JS.nl +:+
  JS.lit "  'message': "
    +:+ JS.quote ("Upstream Error: " +:+ JS.of_N st +:+ " " +:+ statusText) +:+ "," +:+ JS.nl +:+
  JS.lit "  'body': " +:+ JS.quote errorBody +:+ JS.nl +:+
  "}".

(** The bytes of a frame. *)
Definition render (f : Frame) : string :=
  match f with
  | SilenceKeepAlive => ": Waiting..." +:+ JS.nl +:+ JS.nl
  | RealWriteKeepAlive w => envelope w
  | TimeCost w => envelope w
  | UpstreamError st statusText errorBody =>
      envelope ("\n\n```json\n" +:+ errorEvent st statusText errorBody +:+ "\n```")
  | StreamFetchError m =>
      JS.lit "data: {'error':true,'message':" +:+ JS.quote m +:+ "}" +:+ JS.nl +:+ JS.nl
  | Relayed text => text
  | WaitingLine => "Waiting..." +:+ JS.nl
  | TextData text =>
      JS.lit "data: {'text':" +:+ JS.quote text +:+ "}" +:+ JS.nl +:+ JS.nl
  end.

(** Number-to-string conversion of [ms / 1000] for an integer [ms] of
    magnitude below 10^15: at most three decimals, trailing zeros dropped. *)
Definition seconds (ms : Z) : string :=
  let a := Z.abs ms in
  let f := (a mod 1000)%Z in
  let d1 := JS.of_N (Z.to_N (f / 100)) in
  let d2 := JS.of_N (Z.to_N (f / 10 mod 10)) in
  let d3 := JS.of_N (Z.to_N (f mod 10)) in
  (if (ms <? 0)%Z then "-" else EmptyString) +:+
  JS.of_N (Z.to_N (a / 1000)) +:+
  (if (f =? 0)%Z then EmptyString
   else if negb (f mod 10 =? 0)%Z then "." +:+ d1 +:+ d2 +:+ d3
   else if negb (f / 10 mod 10 =? 0)%Z then "." +:+ d1 +:+ d2
   else "." +:+ d1).

(** ** Platform effects *)

Inductive Handle :=
| Undefined
| Null
| TimerId (id : positive).

Definition handle_truthy (h : Handle) : bool :=
  match h with TimerId _ => true | _ => false end.

(** The handle names timer [id]. *)
Definition handle_is (h : Handle) (id : positive) : bool :=
  match h with TimerId j => Pos.eqb j id | _ => false end.

Inductive Callback :=
| AbortCallback
| SilenceCallback
| RealWriteCallback
| WaitingCallback.

Record Timer := {
  delay : N;
  repeating : bool;
  callback : Callback
}.

Inductive Effect :=
| CallAuth (provider : string)
| SetTimeout (id : positive) (ms : N)
| SetInterval (id : positive) (ms : N)
| Fetch (url : string) (options : RequestInit)
| Write (f : Frame)
| ClearTimeout (h : Handle)
| ClearInterval (h : Handle)
| Abort
| Close.

(** [clearTimeout(h)] and [clearInterval(h)] on the timer table: a handle
    that names no live timer changes nothing. *)
Definition clearTimer (h : Handle) (tbl : gmap positive Timer) : gmap positive Timer :=
  match h with
  | TimerId id => delete id tbl
  | _ => tbl
  end.

(** The id [setTimeout] or [setInterval] hands out: the first one above the
    live timers. *)
Definition next_id (tbl : gmap positive Timer) : positive :=
  map_fold (fun k _ acc => Pos.max acc (Pos.succ k)) 1%positive tbl.

(** The frames written, in order, and the number of [close()] calls. *)
Fixpoint frames (l : list Effect) : list Frame :=
  match l with
  | [] => []
  | Write f :: r => f :: frames r
  | _ :: r => frames r
  end.

Fixpoint closes (l : list Effect) : nat :=
  match l with
  | [] => 0
  | Close :: r => S (closes r)
  | _ :: r => closes r
  end.

(** Heartbeat frames first, then only frames of the task: the shape of a
    phased stream. *)
Fixpoint phased (fs : list Frame) : bool :=
  match fs with
  | [] => true
  | f :: r => if is_heartbeat f then phased r else forallb is_spliced (f :: r)
  end.

(** ** What the module imports

    [serverConfig], the constants of [@/app/constant] and the [auth] resolver
    are not part of the route.  The resolver is handed the request object
    itself, so it returns, besides its verdict, the request as it leaves it.
    The two messages are the platform's: the one of the error a cancelled
    fetch or read rejects with, and the one of the [TypeError] raised by
    [res.body.getReader()] on a response without a body. *)

Record Imports := {
  serverConfig : ServerConfig;
  GEMINI_BASE_URL : string;
  ApiPath_Google : string;
  ModelProvider_GeminiPro : string;
  auth : Request -> string -> Json * Request;
  abort_message : string;
  null_body_message : string
}.

(** ** The upstream call, lines 74 to 115 of both files *)

Section Upstream.

Variable imports : Imports.

Definition baseUrl : string :=
  let b0 := match googleUrl (serverConfig imports) with
            | Some u => if JS.truthy u then u else GEMINI_BASE_URL imports
            | None => GEMINI_BASE_URL imports
            end in
  let b1 := if negb (JS.startsWith b0 "http") then "https://" +:+ b0 else b0 in
  if JS.endsWith b1 "/" then JS.slice_0_m1 b1 else b1.

Definition path (req : Request) : string :=
  JS.replaceAll (pathname req) (ApiPath_Google imports) EmptyString.

(** [req?.nextUrl?.searchParams?.get("alt") === "sse"] *)
Definition alt_is_sse (req : Request) : bool :=
  match searchParams_get (searchParams req) "alt" with
  | Some v => String.eqb v "sse"
  | None => false
  end.

Definition fetchUrl (req : Request) : string :=
  baseUrl +:+ path req +:+ (if alt_is_sse req then "?alt=sse" else EmptyString).

Definition x_goog_api_key (req : Request) : string :=
  match headers_get (headers req) "x-goog-api-key" with
  | Some k => if JS.truthy k then k
              else JS.replace (JS.nullish (headers_get (headers req) "Authorization") EmptyString)
                              "Bearer " EmptyString
  | None => JS.replace (JS.nullish (headers_get (headers req) "Authorization") EmptyString)
                       "Bearer " EmptyString
  end.

Definition fetchOptions (req : Request) : RequestInit :=
  {| init_headers := [("Content-Type", "application/json");
                      ("Cache-Control", "no-store");
                      ("x-goog-api-key", x_goog_api_key req)];
     init_method := method req;
     init_body := body req;
     redirect := "manual";
     duplex := "half";
     signal := controller_signal |}.

(** The headers of the streamed response. *)
Definition sse_headers : list (string * string) :=
  [("Content-Type", "text/event-stream");
   ("Cache-Control", "no-cache");
   ("Connection", "keep-alive")].

End Upstream.

(** [res.ok] *)
Definition ok (st : N) : bool := (200 <=? st)%N && (st <=? 299)%N.

(** What the event loop delivers to a session. *)
Inductive Event :=
| Elapse (ms : Z)
| TimerFires (id : positive)
| FetchResolved (st : N) (statusText : string) (hasBody : bool)
| FetchRejected (message : string)
| TextResolved (errorBody : string)
| TextRejected (message : string)
| ReadChunk (value : list byte)
| ReadDone
| ReadRejected (message : string).

(** ** [app/api/google.ts] *)

Module Google.

Definition USE_INTERVAL_REAL_WRITE : bool := true.
Definition HEARTBEAT_INTERVAL : N := 2 * 1000.
Definition DEADLINE : N := 10 * 60 * 1000.

(** Where the asynchronous task is suspended. *)
Inductive Await :=
| AwaitFetch
| AwaitText (st : N) (statusText : string)
| AwaitRead
| Settled.

Record Session := mkSession {
  timers : gmap positive Timer;
  clock : Z;
  log : list Effect;
  timeoutId : Handle;
  intervalId : Handle;
  intervalRealWrite : Handle;
  intervalRealWrite_wrote : bool;
  nowTime : Z;
  decoder : Utf8.Decoder;
  isFirstChunk : bool;
  pc : Await
}.

Definition set_timers (f : gmap positive Timer -> gmap positive Timer) (s : Session) :=
  mkSession (f (timers s)) (clock s) (log s) (timeoutId s) (intervalId s)
    (intervalRealWrite s) (intervalRealWrite_wrote s) (nowTime s) (decoder s)
    (isFirstChunk s) (pc s).

Definition set_clock (c : Z) (s : Session) :=
  mkSession (timers s) c (log s) (timeoutId s) (intervalId s)
    (intervalRealWrite s) (intervalRealWrite_wrote s) (nowTime s) (decoder s)
    (isFirstChunk s) (pc s).

Definition emit (e : Effect) (s : Session) :=
  mkSession (timers s) (clock s) (log s ++ [e]) (timeoutId s) (intervalId s)
    (intervalRealWrite s) (intervalRealWrite_wrote s) (nowTime s) (decoder s)
    (isFirstChunk s) (pc s).

Definition set_intervalId (h : Handle) (s : Session) :=
  mkSession (timers s) (clock s) (log s) (timeoutId s) h
    (intervalRealWrite s) (intervalRealWrite_wrote s) (nowTime s) (decoder s)
    (isFirstChunk s) (pc s).

Definition set_intervalRealWrite (h : Handle) (s : Session) :=
  mkSession (timers s) (clock s) (log s) (timeoutId s) (intervalId s)
    h (intervalRealWrite_wrote s) (nowTime s) (decoder s)
    (isFirstChunk s) (pc s).

Definition set_wrote (b : bool) (s : Session) :=
  mkSession (timers s) (clock s) (log s) (timeoutId s) (intervalId s)
    (intervalRealWrite s) b (nowTime s) (decoder s)
    (isFirstChunk s) (pc s).

Definition set_decoder (d : Utf8.Decoder) (s : Session) :=
  mkSession (timers s) (clock s) (log s) (timeoutId s) (intervalId s)
    (intervalRealWrite s) (intervalRealWrite_wrote s) (nowTime s) d
    (isFirstChunk s) (pc s).

Definition set_isFirstChunk (b : bool) (s : Session) :=
  mkSession (timers s) (clock s) (log s) (timeoutId s) (intervalId s)
    (intervalRealWrite s) (intervalRealWrite_wrote s) (nowTime s) (decoder s)
    b (pc s).

Definition set_pc (a : Await) (s : Session) :=
  mkSession (timers s) (clock s) (log s) (timeoutId s) (intervalId s)
    (intervalRealWrite s) (intervalRealWrite_wrote s) (nowTime s) (decoder s)
    (isFirstChunk s) a.

(** *** The platform calls of the task *)

Definition writer_write (f : Frame) (s : Session) : Session := emit (Write f) s.

Definition writer_close (s : Session) : Session := emit Close s.

Definition clearTimeout (h : Handle) (s : Session) : Session :=
  emit (ClearTimeout h) (set_timers (clearTimer h) s).

Definition clearInterval (h : Handle) (s : Session) : Session :=
  emit (ClearInterval h) (set_timers (clearTimer h) s).

(** *** The two interval callbacks, lines 136 to 152 *)

Definition silence_callback (s : Session) : Session :=
  writer_write SilenceKeepAlive s.

Definition real_write_callback (s : Session) : Session :=
  if negb (intervalRealWrite_wrote s)
  then writer_write (RealWriteKeepAlive "> Waiting.") (set_wrote true s)
  else writer_write (RealWriteKeepAlive ".") s.

(** *** Stopping the ticker: the guarded [clearInterval] of lines 178 to 189
    and again of lines 217 to 231 *)

Definition stop_silence (s : Session) : Session :=
  if handle_truthy (intervalId s)
  then set_intervalId Null (clearInterval (intervalId s) s)
  else s.

Definition stop_real_write (s : Session) : Session :=
  if handle_truthy (intervalRealWrite s)
  then set_intervalRealWrite Null (clearInterval (intervalRealWrite s) s)
  else s.

Definition stop_ticker (s : Session) : Session :=
  if negb USE_INTERVAL_REAL_WRITE then stop_silence s else stop_real_write s.

(** Lines 190 to 195. *)
Definition time_cost (s : Session) : Session :=
  let writeTime := (clock s - nowTime s)%Z in
  let writeString := " (time cost: " +:+ seconds writeTime +:+ "s)\n\n" in
  writer_write
    (TimeCost (if negb (intervalRealWrite_wrote s) then "> " +:+ writeString
               else writeString)) s.

(** Lines 175 to 200. *)
Definition first_chunk_block (s : Session) : Session :=
  let s1 := set_isFirstChunk false s in
  if negb USE_INTERVAL_REAL_WRITE then stop_silence s1
  else time_cost (stop_real_write s1).

(** One pass of the loop down to its [await reader.read()]. *)
Definition loop_head (s : Session) : Session :=
  set_pc AwaitRead (if isFirstChunk s then first_chunk_block s else s).

(** Lines 208 to 211. *)
Definition catch_block (message : string) (s : Session) : Session :=
  writer_write (StreamFetchError message) s.

(** Lines 213 to 235. *)
Definition finally_block (s : Session) : Session :=
  set_pc Settled (writer_close (stop_ticker (clearTimeout (timeoutId s) s))).

Section Route.

Variable imports : Imports.

(** *** [request], lines 71 to 153 and 241 to 250: everything that runs
    before the function returns, the task being left at its first
    [await]. *)

Definition request (req : Request) (apiKey : string) (now : Z) : Response * Session :=
  let timeout_id := next_id ∅ in
  let tbl1 : gmap positive Timer :=
    <[timeout_id := {| delay := DEADLINE; repeating := false;
                       callback := AbortCallback |}]> ∅ in
  let interval_id := next_id tbl1 in
  let tbl2 : gmap positive Timer :=
    <[interval_id := {| delay := HEARTBEAT_INTERVAL; repeating := true;
                        callback := if negb USE_INTERVAL_REAL_WRITE
                                    then SilenceCallback else RealWriteCallback |}]> tbl1 in
  ({| status := 200; responseHeaders := sse_headers; responseBody := ReadableBody |},
   {| timers := tbl2;
      clock := now;
      log := [SetTimeout timeout_id DEADLINE;
              SetInterval interval_id HEARTBEAT_INTERVAL;
              Fetch (fetchUrl imports req) (fetchOptions req)];
      timeoutId := TimerId timeout_id;
      intervalId := if negb USE_INTERVAL_REAL_WRITE then TimerId interval_id
                    else Undefined;
      intervalRealWrite := if negb USE_INTERVAL_REAL_WRITE then Undefined
                           else TimerId interval_id;
      intervalRealWrite_wrote := false;
      nowTime := now;
      decoder := Utf8.fresh;
      isFirstChunk := true;
      pc := AwaitFetch |}).

(** *** The event loop *)

(** [controller.abort()]: the pending fetch, body read or chunk read
    rejects, which the task sees as an exception at its [await]. *)
Definition abort (s : Session) : Session :=
  let s1 := emit Abort s in
  match pc s1 with
  | Settled => s1
  | _ => finally_block (catch_block (abort_message imports) s1)
  end.

Definition fire (id : positive) (s : Session) : option Session :=
  match timers s !! id with
  | None => None
  | Some t =>
      let s1 := if repeating t then s else set_timers (delete id) s in
      match callback t with
      | AbortCallback => Some (abort s1)
      | SilenceCallback => Some (silence_callback s1)
      | RealWriteCallback => Some (real_write_callback s1)
      | WaitingCallback => None
      end
  end.

(** One event; [None] when the event cannot occur in the state. *)
Definition step (s : Session) (e : Event) : option Session :=
  match e, pc s with
  | Elapse ms, _ => Some (set_clock (clock s + ms)%Z s)
  | TimerFires id, _ => fire id s
  | FetchResolved st statusText hasBody, AwaitFetch =>
      if negb (ok st) then Some (set_pc (AwaitText st statusText) s)
      else if negb hasBody
           then Some (finally_block (catch_block (null_body_message imports) s))
           else Some (loop_head (set_isFirstChunk true (set_decoder Utf8.fresh s)))
  | FetchRejected m, AwaitFetch => Some (finally_block (catch_block m s))
  | TextResolved errorBody, AwaitText st statusText =>
      Some (finally_block
              (catch_block ("[Alive] Upstream fetch failed with status " +:+ JS.of_N st)
                 (writer_write (UpstreamError st statusText errorBody) s)))
  | TextRejected m, AwaitText _ _ => Some (finally_block (catch_block m s))
  | ReadChunk value, AwaitRead =>
      let '(d, text) := Utf8.transcode (decoder s) value in
      Some (loop_head (writer_write (Relayed text) (set_decoder d s)))
  | ReadDone, AwaitRead => Some (finally_block s)
  | ReadRejected m, AwaitRead => Some (finally_block (catch_block m s))
  | _, _ => None
  end.

Fixpoint run (s : Session) (es : list Event) : option Session :=
  match es with
  | [] => Some s
  | e :: rest =>
      match step s e with
      | Some s' => run s' rest
      | None => None
      end
  end.

(** *** [handle], lines 9 to 50

    [request] raises nothing before it returns, so the [catch] of lines 46 to
    49 is never entered. *)

Record Result := {
  response : Response;
  effects : list Effect;
  session : option Session
}.

Definition bearToken (req : Request) : string :=
  JS.nullish
    (JS.or_else (JS.or_else (headers_get (headers req) "x-goog-api-key")
                            (headers_get (headers req) "Authorization"))
                (Some EmptyString))
    EmptyString.

Definition token (req : Request) : string :=
  JS.trim (JS.replaceAll (JS.trim (bearToken req)) "Bearer " EmptyString).

Definition apiKey (req : Request) : option string :=
  if JS.truthy (token req) then Some (token req)
  else googleApiKey (serverConfig imports).

Definition missing_key : Json :=
  [("error", JBool true);
   ("message", JStr "missing GOOGLE_API_KEY in server env vars")].

Definition handle (req : Request) (now : Z) : Result :=
  if String.eqb (method req) "OPTIONS" then
    {| response := NextResponse_json [("body", JStr "OK")] 200;
       effects := []; session := None |}
  else
    let '(authResult, req1) := auth imports req (ModelProvider_GeminiPro imports) in
    if json_truthy (field "error" authResult) then
      {| response := NextResponse_json authResult 401;
         effects := [CallAuth (ModelProvider_GeminiPro imports)]; session := None |}
    else
      match apiKey req1 with
      | Some k =>
          if JS.truthy k then
            let '(res, s) := request req1 k now in
            {| response := res;
               effects := CallAuth (ModelProvider_GeminiPro imports) :: log s;
               session := Some s |}
          else
            {| response := NextResponse_json missing_key 401;
               effects := [CallAuth (ModelProvider_GeminiPro imports)]; session := None |}
      | None =>
          {| response := NextResponse_json missing_key 401;
             effects := [CallAuth (ModelProvider_GeminiPro imports)]; session := None |}
      end.

End Route.

End Google.

(** ** The second variant of [request] (the other file of the module)

    Lines 71 to 115 are those of [google.ts]; the relay differs: one interval
    writing a plain line, no test of [res.ok], a [for await] over the body, no
    [catch]. *)

Module Part000.

Definition HEARTBEAT_INTERVAL : N := 2000.
Definition DEADLINE : N := 10 * 60 * 1000.

Inductive Await :=
| AwaitFetch
| AwaitNext
| Settled.

(** [rejected]: the task ended by an exception, which nothing handles. *)
Record Session := mkSession {
  timers : gmap positive Timer;
  log : list Effect;
  timeoutId : Handle;
  intervalId : Handle;
  isFirstChunk : bool;
  rejected : bool;
  pc : Await
}.

Definition set_timers (f : gmap positive Timer -> gmap positive Timer) (s : Session) :=
  mkSession (f (timers s)) (log s) (timeoutId s) (intervalId s) (isFirstChunk s)
    (rejected s) (pc s).

Definition emit (e : Effect) (s : Session) :=
  mkSession (timers s) (log s ++ [e]) (timeoutId s) (intervalId s) (isFirstChunk s)
    (rejected s) (pc s).

Definition set_isFirstChunk (b : bool) (s : Session) :=
  mkSession (timers s) (log s) (timeoutId s) (intervalId s) b (rejected s) (pc s).

Definition set_rejected (b : bool) (s : Session) :=
  mkSession (timers s) (log s) (timeoutId s) (intervalId s) (isFirstChunk s) b (pc s).

Definition set_pc (a : Await) (s : Session) :=
  mkSession (timers s) (log s) (timeoutId s) (intervalId s) (isFirstChunk s)
    (rejected s) a.

Definition writer_write (f : Frame) (s : Session) : Session := emit (Write f) s.

Definition writer_close (s : Session) : Session := emit Close s.

Definition clearTimeout (h : Handle) (s : Session) : Session :=
  emit (ClearTimeout h) (set_timers (clearTimer h) s).

Definition clearInterval (h : Handle) (s : Session) : Session :=
  emit (ClearInterval h) (set_timers (clearTimer h) s).

(** Lines 157 to 165. *)
Definition finally_block (s : Session) : Session :=
  let s1 := clearTimeout (timeoutId s) s in
  set_pc Settled
    (writer_close (if handle_truthy (intervalId s1)
                   then clearInterval (intervalId s1) s1 else s1)).

(** An exception inside the [try]: there is no [catch]. *)
Definition throw (s : Session) : Session := set_rejected true (finally_block s).

(** [chunk.choices]: the chunks of a response body are [Uint8Array]s, which
    have no such property. *)
Definition choices (chunk : list byte) : option (list (option string)) := None.

(** [chunk.choices[0]?.delta?.content], or the empty string for a falsy
    content; [None] is the [TypeError] of
    indexing [undefined]. *)
Definition chunk_text (chunk : list byte) : option string :=
  match choices chunk with
  | None => None
  | Some [] => Some EmptyString
  | Some (content :: _) => Some (JS.nullish (JS.or_else content (Some EmptyString)) EmptyString)
  end.

(** Lines 143 to 155, the body of the loop. *)
Definition loop_body (chunk : list byte) (s : Session) : Session :=
  let s1 := if isFirstChunk s
            then set_isFirstChunk false (clearInterval (intervalId s) s)
            else s in
  match chunk_text chunk with
  | None => throw s1
  | Some text => if JS.truthy text then writer_write (TextData text) s1 else s1
  end.

Section Route.

Variable imports : Imports.

Definition request (req : Request) (apiKey : string) : Response * Session :=
  let timeout_id := next_id ∅ in
  let tbl1 : gmap positive Timer :=
    <[timeout_id := {| delay := DEADLINE; repeating := false;
                       callback := AbortCallback |}]> ∅ in
  let interval_id := next_id tbl1 in
  let tbl2 : gmap positive Timer :=
    <[interval_id := {| delay := HEARTBEAT_INTERVAL; repeating := true;
                        callback := WaitingCallback |}]> tbl1 in
  ({| status := 200; responseHeaders := sse_headers; responseBody := ReadableBody |},
   {| timers := tbl2;
      log := [SetTimeout timeout_id DEADLINE;
              SetInterval interval_id HEARTBEAT_INTERVAL;
              Fetch (fetchUrl imports req) (fetchOptions req)];
      timeoutId := TimerId timeout_id;
      intervalId := TimerId interval_id;
      isFirstChunk := true;
      rejected := false;
      pc := AwaitFetch |}).

Definition abort (s : Session) : Session :=
  let s1 := emit Abort s in
  match pc s1 with
  | Settled => s1
  | _ => throw s1
  end.

Definition fire (id : positive) (s : Session) : option Session :=
  match timers s !! id with
  | None => None
  | Some t =>
      let s1 := if repeating t then s else set_timers (delete id) s in
      match callback t with
      | AbortCallback => Some (abort s1)
      | WaitingCallback => Some (writer_write WaitingLine s1)
      | _ => None
      end
  end.

Definition step (s : Session) (e : Event) : option Session :=
  match e, pc s with
  | Elapse _, _ => Some s
  | TimerFires id, _ => fire id s
  | FetchResolved _ _ hasBody, AwaitFetch =>
      if hasBody then Some (set_pc AwaitNext (set_isFirstChunk true s))
      else Some (throw s)
  | FetchRejected _, AwaitFetch => Some (throw s)
  | ReadChunk chunk, AwaitNext => Some (loop_body chunk s)
  | ReadDone, AwaitNext => Some (finally_block s)
  | ReadRejected _, AwaitNext => Some (throw s)
  | _, _ => None
  end.

Fixpoint run (s : Session) (es : list Event) : option Session :=
  match es with
  | [] => Some s
  | e :: rest =>
      match step s e with
      | Some s' => run s' rest
      | None => None
      end
  end.

End Route.

End Part000.

(** ** Vocabulary of the properties *)

(** The log ends with the clean-up of a [finally] block: [clearTimeout], the
    guarded [clearInterval] when it ran, then [close()]. *)
Definition cleanup_then_close (l : list Effect) : bool :=
  match rev l with
  | Close :: ClearInterval _ :: ClearTimeout _ :: _ => true
  | Close :: ClearTimeout _ :: _ => true
  | _ => false
  end.

Definition heartbeat_frames (l : list Effect) : list Frame :=
  List.filter is_heartbeat (frames l).

Definition error_frames (l : list Effect) : list Frame :=
  List.filter is_error (frames l).

Definition relayed_texts (l : list Effect) : list string :=
  omap (fun f => match f with Relayed t => Some t | _ => None end) (frames l).

Definition chunks_read (es : list Event) : list (list byte) :=
  omap (fun e => match e with ReadChunk v => Some v | _ => None end) es.

(** The texts a decoder produces for a sequence of chunks. *)
Fixpoint transcode_all (d : Utf8.Decoder) (cs : list (list byte)) : list string :=
  match cs with
  | [] => []
  | c :: r => let '(d', t) := Utf8.transcode d c in t :: transcode_all d' r
  end.

Definition is_ascii (b : byte) : bool := (Byte.to_N b <? 128)%N.

(** A timer of the table that fires again and again. *)
Definition ticker_live (tbl : gmap positive Timer) : Prop :=
  exists id t, tbl !! id = Some t /\ repeating t = true.

Definition deadline_timer : Timer :=
  {| delay := 10 * 60 * 1000; repeating := false; callback := AbortCallback |}.

Definition real_write_timer : Timer :=
  {| delay := 2 * 1000; repeating := true; callback := RealWriteCallback |}.

Definition waiting_timer : Timer :=
  {| delay := 2000; repeating := true; callback := WaitingCallback |}.

(** The ids [request] obtains for its two timers. *)
Definition deadline_id : positive := 1.
Definition heartbeat_id : positive := 2.

(** The first [n] frames of the real-write heartbeat. *)
Definition heartbeats (n : nat) : list Frame :=
  match n with
  | O => []
  | S k => RealWriteKeepAlive "> Waiting." :: repeat (RealWriteKeepAlive ".") k
  end.

Definition settled (s : Google.Session) : bool :=
  match Google.pc s with Google.Settled => true | _ => false end.

(** The events that end a session of [google.ts]: the deadline, an upstream
    failure at any of the three [await]s, a response without a body, the body
    read of a response that is not ok, and the end of the upstream stream. *)
Definition terminal (s : Google.Session) (e : Event) : bool :=
  match e, Google.pc s with
  | _, Google.Settled => false
  | TimerFires id, _ => handle_is (Google.timeoutId s) id
  | FetchRejected _, Google.AwaitFetch => true
  | FetchResolved st _ hasBody, Google.AwaitFetch => ok st && negb hasBody
  | TextResolved _, Google.AwaitText _ _ => true
  | TextRejected _, Google.AwaitText _ _ => true
  | ReadDone, Google.AwaitRead => true
  | ReadRejected _, Google.AwaitRead => true
  | _, _ => false
  end.

(** What holds of a session of [google.ts] at each of its suspension points. *)
Definition Inv (s : Google.Session) : Prop :=
  Google.timeoutId s = TimerId deadline_id /\
  Google.intervalId s = Undefined /\
  phased (frames (Google.log s)) = true /\
  match Google.pc s with
  | Google.AwaitFetch | Google.AwaitText _ _ =>
      Google.timers s = <[heartbeat_id := real_write_timer]> {[deadline_id := deadline_timer]} /\
      Google.intervalRealWrite s = TimerId heartbeat_id /\
      forallb is_heartbeat (frames (Google.log s)) = true /\
      closes (Google.log s) = 0
  | Google.AwaitRead =>
      Google.timers s = {[deadline_id := deadline_timer]} /\
      Google.intervalRealWrite s = Null /\
      Google.isFirstChunk s = false /\
      closes (Google.log s) = 0
  | Google.Settled =>
      Google.timers s = ∅ /\
      Google.intervalRealWrite s = Null /\
      closes (Google.log s) = 1 /\
      cleanup_then_close (Google.log s) = true
  end.

Definition settled000 (s : Part000.Session) : bool :=
  match Part000.pc s with Part000.Settled => true | _ => false end.

(** The events that end a session of the second variant. *)
Definition terminal000 (s : Part000.Session) (e : Event) : bool :=
  match e, Part000.pc s with
  | _, Part000.Settled => false
  | TimerFires id, _ => handle_is (Part000.timeoutId s) id
  | FetchRejected _, Part000.AwaitFetch => true
  | FetchResolved _ _ hasBody, Part000.AwaitFetch => negb hasBody
  | ReadChunk _, Part000.AwaitNext => true
  | ReadDone, Part000.AwaitNext => true
  | ReadRejected _, Part000.AwaitNext => true
  | _, _ => false
  end.

Definition Inv000 (s : Part000.Session) : Prop :=
  Part000.timeoutId s = TimerId deadline_id /\
  Part000.intervalId s = TimerId heartbeat_id /\
  forallb is_heartbeat (frames (Part000.log s)) = true /\
  match Part000.pc s with
  | Part000.AwaitFetch | Part000.AwaitNext =>
      Part000.timers s = <[heartbeat_id := waiting_timer]> {[deadline_id := deadline_timer]} /\
      Part000.isFirstChunk s = true /\
      closes (Part000.log s) = 0
  | Part000.Settled =>
      Part000.timers s = ∅ /\
      closes (Part000.log s) = 1 /\
      cleanup_then_close (Part000.log s) = true
  end.

(** The frames [n] further ticks of the real-write heartbeat produce, given
    whether one was written before. *)
Definition beats (wrote : bool) (n : nat) : list Frame :=
  if wrote then repeat (RealWriteKeepAlive ".") n else heartbeats n.

(** The events of a wait: time passing and the heartbeat interval firing. *)
Definition is_wait (e : Event) : bool :=
  match e with
  | Elapse _ => true
  | TimerFires id => Pos.eqb id heartbeat_id
  | _ => false
  end.

Fixpoint ticks (es : list Event) : nat :=
  match es with
  | [] => 0
  | TimerFires _ :: r => S (ticks r)
  | _ :: r => ticks r
  end.

Fixpoint elapsed (es : list Event) : Z :=
  match es with
  | [] => 0
  | Elapse ms :: r => ms + elapsed r
  | _ :: r => elapsed r
  end.

(** The decoder after a sequence of chunks. *)
Fixpoint decoder_after (d : Utf8.Decoder) (cs : list (list byte)) : Utf8.Decoder :=
  match cs with
  | [] => d
  | c :: r => decoder_after (fst (Utf8.transcode d c)) r
  end.

(** Relayed texts and decoder state of [google.ts] against the chunks read
    so far. *)
Definition Relay (s : Google.Session) (cs : list (list byte)) : Prop :=
  relayed_texts (Google.log s) = transcode_all Utf8.fresh cs /\
  match Google.pc s with
  | Google.AwaitFetch | Google.AwaitText _ _ => cs = []
  | Google.AwaitRead => Google.decoder s = decoder_after Utf8.fresh cs
  | Google.Settled => True
  end.

(** ** Sample collaborators and requests *)

Definition sample_imports (key : option string) (verdict : Json) : Imports :=
  {| serverConfig := {| googleApiKey := key; googleUrl := None |};
     GEMINI_BASE_URL := "https://generativelanguage.googleapis.com/";
     ApiPath_Google := "/api/google";
     ModelProvider_GeminiPro := "GeminiPro";
     auth := fun req _ => (verdict, req);
     abort_message := "The operation was aborted.";
     null_body_message := "Cannot read properties of null (reading 'getReader')" |}.

Definition accepted : Json := [("error", JBool false)].

Definition refused : Json :=
  [("error", JBool true); ("msg", JStr "wrong access code")].

Definition sample_request (m : string) (hs qs : list (string * string)) : Request :=
  {| method := m; headers := hs;
     pathname := "/api/google/v1beta/models/gemini-pro:streamGenerateContent";
     searchParams := qs; body := None |}.

Definition sample_cfg : Imports := sample_imports (Some "server-key") accepted.

Definition sample_req : Request :=
  sample_request "POST" [("x-goog-api-key", "user-key")] [("alt", "sse"); ("key", "abc")].

Definition sample_session : Google.Session :=
  snd (Google.request sample_cfg sample_req "user-key" 0).

Definition sample_session000 : Part000.Session :=
  snd (Part000.request sample_cfg sample_req "user-key").

(** Two ticks, then an upstream that answers 200 and streams two chunks. *)
Definition sample_relay : list Event :=
  [TimerFires heartbeat_id; Elapse 2000; TimerFires heartbeat_id; Elapse 1000;
   FetchResolved 200 "OK" true;
   ReadChunk (Utf8.bytes_of_string "data: {}");
   ReadChunk (Utf8.bytes_of_string "hi");
   ReadDone].

(** One tick, and nothing from the upstream yet. *)
Definition sample_silence : list Event := [Elapse 2000; TimerFires heartbeat_id].

(** ** Vocabulary of the further properties *)

(** [s.includes(pat)] *)
Fixpoint occurs (pat s : string) : bool :=
  match s with
  | EmptyString => String.prefix pat EmptyString
  | String _ t => String.prefix pat s || occurs pat t
  end.

(** The base URL of lines 74 to 80, before the trailing slash is looked at. *)
Definition schemed_url (imports : Imports) : string :=
  let b0 := match googleUrl (serverConfig imports) with
            | Some u => if JS.truthy u then u else GEMINI_BASE_URL imports
            | None => GEMINI_BASE_URL imports
            end in
  if negb (JS.startsWith b0 "http") then "https://" +:+ b0 else b0.

(** The number of line feeds of a text. *)
Fixpoint line_feeds (s : string) : nat :=
  match s with
  | EmptyString => 0
  | String c t => (if Ascii.eqb c "010"%char then 1 else 0) + line_feeds t
  end.

(** The texts of a list, one after the other. *)
Fixpoint joined (l : list string) : string :=
  match l with
  | [] => EmptyString
  | t :: r => t +:+ joined r
  end.

(** A decoder with its byte-order-mark flag set to [b]. *)
Definition with_bom (b : bool) (d : Utf8.Decoder) : Utf8.Decoder :=
  {| Utf8.code_point := Utf8.code_point d; Utf8.bytes_seen := Utf8.bytes_seen d;
     Utf8.bytes_needed := Utf8.bytes_needed d;
     Utf8.lower_boundary := Utf8.lower_boundary d;
     Utf8.upper_boundary := Utf8.upper_boundary d; Utf8.bom_seen := b |}.

Definition is_waiting_line (f : Frame) : bool :=
  match f with WaitingLine => true | _ => false end.

(** A request whose key header holds a bearer-style value, and one that
    carries cookies besides its key. *)
Definition sample_bearer_req : Request :=
  sample_request "POST" [("X-Goog-Api-Key", "Bearer user-key")] [("alt", "sse")].

Definition sample_authorization_req : Request :=
  sample_request "POST" [("Authorization", "Bearer Bearer user-key")] [].

Definition sample_cookie_req : Request :=
  sample_request "POST"
    [("cookie", "session=1"); ("x-goog-api-key", "user-key"); ("x-forwarded-for", "10.0.0.1")]
    [("alt", "sse"); ("key", "abc")].

(** The Unicode scalar values: the code points up to U+10FFFF that are no
    surrogates. *)
Definition is_scalar (cp : N) : bool :=
  ((cp <? 55296) || (57343 <? cp))%N && (cp <=? 1114111)%N.

(** What [TextDecoder] makes of a decoded text: a byte-order mark at its
    start is dropped. *)
Definition without_bom (cps : list N) : list N :=
  match cps with
  | cp :: rest => if (cp =? 65279)%N then rest else cps
  | [] => []
  end.

(** [f] holds of every number below [n]. *)
Fixpoint below_all (f : N -> bool) (n : nat) : bool :=
  match n with
  | O => true
  | S k => f (N.of_nat k) && below_all f k
  end.

(** The byte of a number below 256. *)
Definition byte_of_N (n : N) : byte := byte_of_ascii (ascii_of_N n).

(** ** Logs and frames *)

Lemma frames_app l1 l2 : frames (l1 ++ l2) = frames l1 ++ frames l2.
Proof.
  induction l1 as [|e l1 IH]; simpl; [reflexivity|].
  destruct e; simpl; rewrite ?IH; reflexivity.
Qed.

Lemma closes_app l1 l2 : closes (l1 ++ l2) = closes l1 + closes l2.
Proof.
  induction l1 as [|e l1 IH]; simpl; [reflexivity|].
  destruct e; simpl; rewrite ?IH; reflexivity.
Qed.

Lemma frames_map_Write fs : frames (map Write fs) = fs.
Proof. induction fs as [|f fs IH]; simpl; congruence. Qed.

Lemma closes_map_Write fs : closes (map Write fs) = 0.
Proof. induction fs as [|f fs IH]; simpl; congruence. Qed.

Lemma last_cons_snoc {A} (x y : A) l : last (x :: l ++ [y]) = Some y.
Proof. rewrite app_comm_cons. apply last_snoc. Qed.

Lemma forallb_snoc {A} (p : A -> bool) l x :
  forallb p (l ++ [x]) = forallb p l && p x.
Proof. rewrite forallb_app. simpl. rewrite andb_true_r. reflexivity. Qed.

Lemma heartbeat_frames_snoc l e :
  heartbeat_frames (l ++ [e]) =
  heartbeat_frames l ++ match e with
                        | Write f => if is_heartbeat f then [f] else []
                        | _ => []
                        end.
Proof.
  unfold heartbeat_frames. rewrite frames_app, List.filter_app.
  destruct e; simpl; try reflexivity.
Qed.

Lemma relayed_texts_snoc l e :
  relayed_texts (l ++ [e]) =
  relayed_texts l ++ match e with Write (Relayed t) => [t] | _ => [] end.
Proof.
  unfold relayed_texts. rewrite frames_app, omap_app.
  destruct e as [| | | |[]| | | |]; reflexivity.
Qed.

Lemma chunks_read_cons e es : chunks_read (e :: es) = chunks_read [e] ++ chunks_read es.
Proof. unfold chunks_read. change (e :: es) with ([e] ++ es). apply omap_app. Qed.

Lemma phased_heartbeats fs : forallb is_heartbeat fs = true -> phased fs = true.
Proof.
  induction fs as [|f fs IH]; simpl; [reflexivity|].
  intros [Hf Hfs]%andb_true_iff. rewrite Hf. auto.
Qed.

Lemma phased_heartbeats_snoc fs f :
  forallb is_heartbeat fs = true ->
  is_heartbeat f || is_spliced f = true ->
  phased (fs ++ [f]) = true.
Proof.
  intros Hfs Hf. induction fs as [|g fs IH]; simpl.
  - destruct (is_heartbeat f); simpl in *; [reflexivity|]. rewrite Hf. reflexivity.
  - simpl in Hfs. apply andb_true_iff in Hfs as [Hg Hfs]. rewrite Hg. auto.
Qed.

Lemma phased_snoc fs f :
  phased fs = true -> is_spliced f = true -> phased (fs ++ [f]) = true.
Proof.
  intros Hp Hf. induction fs as [|g fs IH]; simpl in *.
  - rewrite Hf. destruct (is_heartbeat f); reflexivity.
  - destruct (is_heartbeat g); [auto|].
    apply andb_true_iff in Hp as [Hg Hfs].
    rewrite Hg, forallb_snoc, Hfs, Hf. reflexivity.
Qed.

Lemma phased_split fs :
  phased fs = true ->
  exists hb rest, fs = hb ++ rest /\
                  forallb is_heartbeat hb = true /\
                  forallb is_spliced rest = true.
Proof.
  induction fs as [|f fs IH]; simpl.
  - intros _. exists [], []. auto.
  - destruct (is_heartbeat f) eqn:Hf.
    + intros (hb & rest & -> & Hhb & Hrest)%IH.
      exists (f :: hb), rest. simpl. rewrite Hf. auto.
    + intros Hrest. exists [], (f :: fs). simpl. auto.
Qed.

Lemma beats_S wrote n :
  beats wrote (S n) =
  RealWriteKeepAlive (if wrote then "." else "> Waiting.") :: beats true n.
Proof. destruct wrote; reflexivity. Qed.

Lemma heartbeats_add n m :
  heartbeats n ++ beats (negb (Nat.eqb n 0)) m = heartbeats (n + m).
Proof.
  destruct n as [|n]; simpl; [reflexivity|].
  unfold beats. simpl. f_equal. symmetry. apply repeat_app.
Qed.

(** ** The timer table *)

Lemma lookup_two (d h : Timer) (id : positive) :
  (<[heartbeat_id := h]> {[deadline_id := d]} : gmap positive Timer) !! id =
  if Pos.eqb id heartbeat_id then Some h
  else if Pos.eqb id deadline_id then Some d else None.
Proof.
  destruct (Pos.eqb_spec id heartbeat_id) as [->|H2]; [reflexivity|].
  rewrite lookup_insert_ne by congruence.
  destruct (Pos.eqb_spec id deadline_id) as [->|H1]; [reflexivity|].
  apply lookup_singleton_ne. congruence.
Qed.

Lemma lookup_one (d : Timer) (id : positive) :
  ({[deadline_id := d]} : gmap positive Timer) !! id =
  if Pos.eqb id deadline_id then Some d else None.
Proof.
  destruct (Pos.eqb_spec id deadline_id) as [->|H1]; [reflexivity|].
  apply lookup_singleton_ne. congruence.
Qed.

(** ** Proof steps shared by the case analyses on [step] *)

Ltac log_simpl :=
  simpl; rewrite ?frames_app, ?closes_app; simpl;
  rewrite ?forallb_snoc, ?app_nil_r; simpl.

Ltac inv_done :=
  log_simpl;
  repeat match goal with
         | |- _ /\ _ => split
         | |- _ = _ => reflexivity || assumption || lia
         | H : forallb is_heartbeat ?fs = true |- phased (?fs ++ [_]) = true =>
             apply phased_heartbeats_snoc; [exact H | reflexivity]
         | H : forallb is_heartbeat ?fs = true |- phased ((?fs ++ [_]) ++ [_]) = true =>
             apply phased_snoc;
             [apply phased_heartbeats_snoc; [exact H | reflexivity] | reflexivity]
         | H : phased ?fs = true |- phased (?fs ++ [_]) = true =>
             apply phased_snoc; [exact H | reflexivity]
         | H : forallb is_heartbeat ?fs = true |- forallb is_heartbeat ?fs && _ = true =>
             rewrite H; reflexivity
         | |- cleanup_then_close _ = true =>
             unfold cleanup_then_close; rewrite !rev_app_distr; reflexivity
         end.

Ltac step_done H := inversion H; subst; clear H; inv_done.

Ltac relay_done H Hrel :=
  inversion H; subst; clear H; simpl;
  rewrite ?relayed_texts_snoc, ?app_nil_r; simpl;
  rewrite ?app_nil_r, ?Hrel; auto.

Ltac exists_deadline c :=
  eexists _, c; split; [reflexivity|]; split; [reflexivity|]; simpl;
  rewrite <- !app_assoc; simpl; split; [reflexivity|]; auto.

(** ** The sessions of [google.ts] *)

Lemma request_eq imports req k now :
  Google.request imports req k now =
  ({| status := 200; responseHeaders := sse_headers; responseBody := ReadableBody |},
   Google.mkSession (<[heartbeat_id := real_write_timer]> {[deadline_id := deadline_timer]})
     now
     [SetTimeout deadline_id (10 * 60 * 1000); SetInterval heartbeat_id (2 * 1000);
      Fetch (fetchUrl imports req) (fetchOptions req)]
     (TimerId deadline_id) Undefined (TimerId heartbeat_id) false now Utf8.fresh true
     Google.AwaitFetch).
Proof. reflexivity. Qed.

Lemma request_Inv imports req k now : Inv (snd (Google.request imports req k now)).
Proof. repeat split. Qed.

Lemma step_Inv imports s e s' : Inv s -> Google.step imports s e = Some s' -> Inv s'.
Proof.
  destruct s as [tm ck lg tid iid irw wrote nt dec ifc pc0].
  unfold Inv; simpl. intros (-> & -> & Hph & H) Hstep.
  destruct pc0.
  - destruct H as (-> & -> & Hhb & Hcl).
    destruct e; simpl in Hstep; try discriminate.
    + step_done Hstep.
    + unfold Google.fire in Hstep. simpl in Hstep. rewrite lookup_two in Hstep.
      destruct (Pos.eqb_spec id heartbeat_id) as [->|H2].
      * simpl in Hstep. unfold Google.real_write_callback in Hstep. simpl in Hstep.
        destruct wrote; simpl in Hstep; step_done Hstep.
      * destruct (Pos.eqb_spec id deadline_id) as [->|H1]; [|discriminate].
        simpl in Hstep. step_done Hstep.
    + destruct (ok st); simpl in Hstep; [destruct hasBody; simpl in Hstep|]; step_done Hstep.
    + step_done Hstep.
  - destruct H as (-> & -> & Hhb & Hcl).
    destruct e; simpl in Hstep; try discriminate.
    + step_done Hstep.
    + unfold Google.fire in Hstep. simpl in Hstep. rewrite lookup_two in Hstep.
      destruct (Pos.eqb_spec id heartbeat_id) as [->|H2].
      * simpl in Hstep. unfold Google.real_write_callback in Hstep. simpl in Hstep.
        destruct wrote; simpl in Hstep; step_done Hstep.
      * destruct (Pos.eqb_spec id deadline_id) as [->|H1]; [|discriminate].
        simpl in Hstep. step_done Hstep.
    + step_done Hstep.
    + step_done Hstep.
  - destruct H as (-> & -> & -> & Hcl).
    destruct e; simpl in Hstep; try discriminate.
    + step_done Hstep.
    + unfold Google.fire in Hstep. simpl in Hstep. rewrite lookup_one in Hstep.
      destruct (Pos.eqb_spec id deadline_id) as [->|H1]; [|discriminate].
      simpl in Hstep. step_done Hstep.
    + destruct (Utf8.transcode dec value) as [d text]. step_done Hstep.
    + step_done Hstep.
    + step_done Hstep.
  - destruct H as (-> & -> & Hcl & Hcc).
    destruct e; simpl in Hstep; try discriminate.
    step_done Hstep.
Qed.

Lemma run_Inv imports es : forall s s',
  Inv s -> Google.run imports s es = Some s' -> Inv s'.
Proof.
  induction es as [|e es IH]; simpl; intros s s' HI Hrun.
  - congruence.
  - destruct (Google.step imports s e) as [s1|] eqn:Hstep; [|discriminate].
    eauto using step_Inv.
Qed.

Lemma reachable_Inv imports req k now es s :
  Google.run imports (snd (Google.request imports req k now)) es = Some s -> Inv s.
Proof. apply run_Inv, request_Inv. Qed.

Lemma run_app imports es1 : forall s es2,
  Google.run imports s (es1 ++ es2) =
  match Google.run imports s es1 with
  | Some s' => Google.run imports s' es2
  | None => None
  end.
Proof.
  induction es1 as [|e es1 IH]; simpl; intros s es2; [reflexivity|].
  destruct (Google.step imports s e); [apply IH|reflexivity].
Qed.

Lemma Inv_live s :
  Inv s -> ticker_live (Google.timers s) ->
  Google.intervalRealWrite s = TimerId heartbeat_id /\
  forallb is_heartbeat (frames (Google.log s)) = true.
Proof.
  intros (_ & _ & _ & H) (id & t & Hlk & Hrep).
  destruct (Google.pc s).
  - tauto.
  - tauto.
  - destruct H as (Htm & _). rewrite Htm, lookup_one in Hlk.
    destruct (Pos.eqb id deadline_id); inversion Hlk; subst; discriminate.
  - destruct H as (Htm & _). rewrite Htm, lookup_empty in Hlk. discriminate.
Qed.

Lemma Inv_closes s :
  Inv s -> closes (Google.log s) = if settled s then 1 else 0.
Proof.
  intros (_ & _ & _ & H). unfold settled. destruct (Google.pc s); tauto.
Qed.

Lemma Inv_settled s :
  Inv s -> settled s = true ->
  Google.timers s = ∅ /\ cleanup_then_close (Google.log s) = true.
Proof.
  intros (_ & _ & _ & H). unfold settled. destruct (Google.pc s); try discriminate. tauto.
Qed.

Lemma Inv_terminal imports s e :
  Inv s -> terminal s e = true ->
  exists s', Google.step imports s e = Some s' /\ settled s' = true.
Proof.
  destruct s as [tm ck lg tid iid irw wrote nt dec ifc pc0].
  unfold Inv, terminal, settled; simpl. intros (-> & -> & Hph & H) Ht.
  destruct pc0; destruct e; simpl in Ht; try discriminate; simpl.
  all: try (eexists; split; [reflexivity|reflexivity]).
  - apply Pos.eqb_eq in Ht. subst id. destruct H as (-> & _).
    unfold Google.fire; simpl. rewrite lookup_two. simpl. eexists; split; reflexivity.
  - apply andb_true_iff in Ht as [-> ->%negb_true_iff]. simpl. eexists; split; reflexivity.
  - apply Pos.eqb_eq in Ht. subst id. destruct H as (-> & _).
    unfold Google.fire; simpl. rewrite lookup_two. simpl. eexists; split; reflexivity.
  - apply Pos.eqb_eq in Ht. subst id. destruct H as (-> & _).
    unfold Google.fire; simpl. rewrite lookup_one. simpl. eexists; split; reflexivity.
Qed.

Lemma Inv_deadline imports s :
  Inv s -> settled s = false ->
  Google.timers s !! deadline_id = Some deadline_timer /\
  exists s' cleanup,
    Google.step imports s (TimerFires deadline_id) = Some s' /\
    settled s' = true /\
    Google.log s' =
      Google.log s ++ [Abort; Write (StreamFetchError (abort_message imports))]
                   ++ cleanup ++ [Close] /\
    (cleanup = [ClearTimeout (TimerId deadline_id)] \/
     cleanup = [ClearTimeout (TimerId deadline_id); ClearInterval (TimerId heartbeat_id)]).
Proof.
  destruct s as [tm ck lg tid iid irw wrote nt dec ifc pc0].
  unfold Inv, settled; simpl. intros (-> & -> & Hph & H) Hs.
  destruct pc0; try discriminate.
  - destruct H as (-> & -> & _). split; [reflexivity|].
    unfold Google.fire; simpl. rewrite lookup_two. simpl.
    exists_deadline [ClearTimeout (TimerId deadline_id); ClearInterval (TimerId heartbeat_id)].
  - destruct H as (-> & -> & _). split; [reflexivity|].
    unfold Google.fire; simpl. rewrite lookup_two. simpl.
    exists_deadline [ClearTimeout (TimerId deadline_id); ClearInterval (TimerId heartbeat_id)].
  - destruct H as (-> & -> & _). split; [reflexivity|].
    unfold Google.fire; simpl. rewrite lookup_one. simpl.
    exists_deadline [ClearTimeout (TimerId deadline_id)].
Qed.

Lemma stop_ticker_idem s : Google.stop_ticker (Google.stop_ticker s) = Google.stop_ticker s.
Proof.
  destruct s as [tm ck lg tid iid irw wrote nt dec ifc pc0].
  unfold Google.stop_ticker, Google.stop_real_write; simpl.
  destruct irw; reflexivity.
Qed.

Lemma step_stopped imports s e s' :
  Inv s -> Google.intervalRealWrite s = Null ->
  Google.step imports s e = Some s' ->
  Google.intervalRealWrite s' = Null /\
  heartbeat_frames (Google.log s') = heartbeat_frames (Google.log s).
Proof.
  destruct s as [tm ck lg tid iid irw wrote nt dec ifc pc0].
  unfold Inv; simpl. intros (-> & -> & Hph & H) -> Hstep.
  destruct pc0; try (destruct H as (_ & [=] & _); fail).
  - destruct H as (-> & _ & -> & Hcl).
    destruct e; simpl in Hstep; try discriminate.
    + inversion Hstep; subst; auto.
    + unfold Google.fire in Hstep. simpl in Hstep. rewrite lookup_one in Hstep.
      destruct (Pos.eqb_spec id deadline_id) as [->|H1]; [|discriminate].
      simpl in Hstep. inversion Hstep; subst; clear Hstep. simpl.
      rewrite !heartbeat_frames_snoc. simpl. rewrite !app_nil_r. auto.
    + destruct (Utf8.transcode dec value) as [d text].
      inversion Hstep; subst; clear Hstep. simpl.
      rewrite !heartbeat_frames_snoc. simpl. rewrite !app_nil_r. auto.
    + inversion Hstep; subst; clear Hstep. simpl.
      rewrite !heartbeat_frames_snoc. simpl. rewrite !app_nil_r. auto.
    + inversion Hstep; subst; clear Hstep. simpl.
      rewrite !heartbeat_frames_snoc. simpl. rewrite !app_nil_r. auto.
  - destruct H as (-> & _).
    destruct e; simpl in Hstep; try discriminate.
    inversion Hstep; subst; auto.
Qed.

Lemma run_stopped imports es : forall s s',
  Inv s -> Google.intervalRealWrite s = Null ->
  Google.run imports s es = Some s' ->
  heartbeat_frames (Google.log s') = heartbeat_frames (Google.log s).
Proof.
  induction es as [|e es IH]; simpl; intros s s' HI Hn Hrun.
  - congruence.
  - destruct (Google.step imports s e) as [s1|] eqn:Hstep; [|discriminate].
    destruct (step_stopped _ _ _ _ HI Hn Hstep) as [Hn1 Hhb1].
    rewrite <- Hhb1. eapply IH; eauto using step_Inv.
Qed.

(** *** Waiting: time passes and the interval fires *)

Lemma step_tick imports ck lg tid iid irw wrote nt dec ifc a :
  Google.step imports
    (Google.mkSession (<[heartbeat_id := real_write_timer]> {[deadline_id := deadline_timer]})
       ck lg tid iid irw wrote nt dec ifc a)
    (TimerFires heartbeat_id) =
  Some (Google.mkSession (<[heartbeat_id := real_write_timer]> {[deadline_id := deadline_timer]})
          ck (lg ++ [Write (RealWriteKeepAlive (if wrote then "." else "> Waiting."))])
          tid iid irw true nt dec ifc a).
Proof.
  unfold Google.step, Google.fire. simpl Google.timers. rewrite lookup_two.
  destruct wrote; reflexivity.
Qed.

Lemma run_waiting imports es : forall ck lg tid iid irw wrote nt dec ifc a,
  forallb is_wait es = true ->
  Google.run imports
    (Google.mkSession (<[heartbeat_id := real_write_timer]> {[deadline_id := deadline_timer]})
       ck lg tid iid irw wrote nt dec ifc a) es =
  Some (Google.mkSession (<[heartbeat_id := real_write_timer]> {[deadline_id := deadline_timer]})
          (ck + elapsed es) (lg ++ map Write (beats wrote (ticks es))) tid iid irw
          (wrote || negb (Nat.eqb (ticks es) 0)) nt dec ifc a).
Proof.
  induction es as [|e es IH]; intros ck lg tid iid irw wrote nt dec ifc a Hw.
  - unfold beats. destruct wrote; simpl; rewrite app_nil_r, Z.add_0_r; reflexivity.
  - apply andb_true_iff in Hw as [He Hw].
    destruct e; try discriminate.
    + unfold Google.run; fold (Google.run imports).
      unfold Google.step, Google.set_clock.
      cbn [Google.timers Google.clock Google.log Google.timeoutId Google.intervalId
             Google.intervalRealWrite Google.intervalRealWrite_wrote Google.nowTime
             Google.decoder Google.isFirstChunk Google.pc].
      rewrite (IH _ _ _ _ _ _ _ _ _ _ Hw).
      cbn [elapsed ticks]. rewrite Z.add_assoc. reflexivity.
    + unfold is_wait in He. apply Pos.eqb_eq in He. subst id.
      unfold Google.run; fold (Google.run imports).
      rewrite step_tick, (IH _ _ _ _ _ _ _ _ _ _ Hw).
      cbn [elapsed ticks]. rewrite beats_S, <- app_assoc, orb_true_r. reflexivity.
Qed.

(** *** The chunks read against the texts relayed *)

Lemma transcode_all_snoc cs : forall d c,
  transcode_all d (cs ++ [c]) =
  transcode_all d cs ++ [snd (Utf8.transcode (decoder_after d cs) c)].
Proof.
  induction cs as [|c0 cs IH]; intros d c; simpl.
  - destruct (Utf8.transcode d c); reflexivity.
  - destruct (Utf8.transcode d c0) as [d' t]. simpl. rewrite IH. reflexivity.
Qed.

Lemma decoder_after_snoc cs : forall d c,
  decoder_after d (cs ++ [c]) = fst (Utf8.transcode (decoder_after d cs) c).
Proof.
  induction cs as [|c0 cs IH]; intros d c; simpl; [reflexivity|apply IH].
Qed.

Lemma step_Relay imports s e s' cs :
  Inv s -> Relay s cs -> Google.step imports s e = Some s' ->
  Relay s' (cs ++ chunks_read [e]).
Proof.
  destruct s as [tm ck lg tid iid irw wrote nt dec ifc pc0].
  unfold Inv, Relay; simpl. intros (-> & -> & Hph & H) (Hrel & Hd) Hstep.
  destruct pc0.
  - destruct H as (-> & -> & Hhb & Hcl). subst cs.
    destruct e; simpl in Hstep; try discriminate.
    + relay_done Hstep Hrel.
    + unfold Google.fire in Hstep. simpl in Hstep. rewrite lookup_two in Hstep.
      destruct (Pos.eqb_spec id heartbeat_id) as [->|H2].
      * simpl in Hstep. unfold Google.real_write_callback in Hstep. simpl in Hstep.
        destruct wrote; simpl in Hstep; relay_done Hstep Hrel.
      * destruct (Pos.eqb_spec id deadline_id) as [->|H1]; [|discriminate].
        simpl in Hstep. relay_done Hstep Hrel.
    + destruct (ok st); simpl in Hstep; [destruct hasBody; simpl in Hstep|];
        relay_done Hstep Hrel.
    + relay_done Hstep Hrel.
  - destruct H as (-> & -> & Hhb & Hcl). subst cs.
    destruct e; simpl in Hstep; try discriminate.
    + relay_done Hstep Hrel.
    + unfold Google.fire in Hstep. simpl in Hstep. rewrite lookup_two in Hstep.
      destruct (Pos.eqb_spec id heartbeat_id) as [->|H2].
      * simpl in Hstep. unfold Google.real_write_callback in Hstep. simpl in Hstep.
        destruct wrote; simpl in Hstep; relay_done Hstep Hrel.
      * destruct (Pos.eqb_spec id deadline_id) as [->|H1]; [|discriminate].
        simpl in Hstep. relay_done Hstep Hrel.
    + relay_done Hstep Hrel.
    + relay_done Hstep Hrel.
  - destruct H as (-> & -> & -> & Hcl). simpl in Hd. subst dec.
    destruct e; simpl in Hstep; try discriminate.
    + relay_done Hstep Hrel.
    + unfold Google.fire in Hstep. simpl in Hstep. rewrite lookup_one in Hstep.
      destruct (Pos.eqb_spec id deadline_id) as [->|H1]; [|discriminate].
      simpl in Hstep. relay_done Hstep Hrel.
    + destruct (Utf8.transcode (decoder_after Utf8.fresh cs) value) as [d text] eqn:Ht.
      inversion Hstep; subst; clear Hstep; simpl.
      rewrite relayed_texts_snoc, Hrel, transcode_all_snoc, decoder_after_snoc, Ht.
      simpl. auto.
    + relay_done Hstep Hrel.
    + relay_done Hstep Hrel.
  - destruct H as (-> & -> & Hcl & Hcc).
    destruct e; simpl in Hstep; try discriminate.
    relay_done Hstep Hrel.
Qed.

Lemma run_Relay imports es : forall s s' cs,
  Inv s -> Relay s cs -> Google.run imports s es = Some s' ->
  Relay s' (cs ++ chunks_read es).
Proof.
  induction es as [|e es IH]; intros s s' cs HI HR Hrun; simpl in Hrun.
  - inversion Hrun; subst. unfold chunks_read. simpl. rewrite app_nil_r. assumption.
  - destruct (Google.step imports s e) as [s1|] eqn:Hstep; [|discriminate].
    rewrite chunks_read_cons, app_assoc.
    apply (IH s1 s' (cs ++ chunks_read [e])).
    + eapply step_Inv; eassumption.
    + eapply step_Relay; eassumption.
    + assumption.
Qed.

(** *** Chunks of ASCII bytes pass the decoder and the encoder unchanged *)

Lemma run_ascii bs : forall d,
  Utf8.bytes_needed d = 0%N -> forallb is_ascii bs = true ->
  Utf8.run d bs = (d, map Byte.to_N bs).
Proof.
  induction bs as [|b bs IH]; intros d Hd Hbs; simpl; [reflexivity|].
  simpl in Hbs. apply andb_true_iff in Hbs as [Hb Hbs].
  unfold Utf8.handler. rewrite Hd. simpl.
  unfold Utf8.lead. unfold is_ascii in Hb.
  assert (Hle : (Byte.to_N b <=? 127)%N = true).
  { apply N.leb_le. apply N.ltb_lt in Hb. lia. }
  rewrite Hle. rewrite (IH d Hd Hbs). reflexivity.
Qed.

Lemma encode_ascii bs :
  forallb is_ascii bs = true ->
  Utf8.encode (map Byte.to_N bs) = Utf8.string_of_bytes bs.
Proof.
  unfold Utf8.encode, Utf8.string_of_bytes. intros Hbs. f_equal.
  induction bs as [|b bs IH]; simpl; [reflexivity|].
  simpl in Hbs. apply andb_true_iff in Hbs as [Hb Hbs].
  unfold Utf8.encode_cp at 1. unfold is_ascii in Hb.
  assert (Hle : (Byte.to_N b <=? 127)%N = true).
  { apply N.leb_le. apply N.ltb_lt in Hb. lia. }
  rewrite Hle. simpl. rewrite IH by assumption.
  rewrite ascii_of_byte_via_N. reflexivity.
Qed.

Lemma transcode_ascii d bs :
  Utf8.bytes_needed d = 0%N -> forallb is_ascii bs = true ->
  snd (Utf8.transcode d bs) = Utf8.string_of_bytes bs /\
  Utf8.bytes_needed (fst (Utf8.transcode d bs)) = 0%N.
Proof.
  intros Hd Hbs. unfold Utf8.transcode. rewrite run_ascii by assumption.
  destruct bs as [|b bs]; [simpl; auto|].
  unfold Utf8.serialize. cbn [map].
  destruct (Utf8.bom_seen d).
  - simpl fst. simpl snd. split; [|assumption].
    apply (encode_ascii (b :: bs)). assumption.
  - assert (Hne : (Byte.to_N b =? 65279)%N = false).
    { apply N.eqb_neq. simpl in Hbs. apply andb_true_iff in Hbs as [Hb _].
      unfold is_ascii in Hb. apply N.ltb_lt in Hb. lia. }
    rewrite Hne. simpl fst. simpl snd. split; [|assumption].
    apply (encode_ascii (b :: bs)). assumption.
Qed.

Lemma transcode_all_ascii cs : forall d,
  Utf8.bytes_needed d = 0%N -> forallb (forallb is_ascii) cs = true ->
  transcode_all d cs = map Utf8.string_of_bytes cs.
Proof.
  induction cs as [|c cs IH]; intros d Hd Hcs; simpl; [reflexivity|].
  simpl in Hcs. apply andb_true_iff in Hcs as [Hc Hcs].
  destruct (transcode_ascii d c Hd Hc) as [Hs Hn].
  destruct (Utf8.transcode d c) as [d' t]. simpl in Hs, Hn. subst t.
  rewrite (IH d' Hn Hcs). reflexivity.
Qed.

(** X15: every chunk [google.ts] reads is written, in order, as the decoder and
    the encoder turn it out; a stream of ASCII chunks arrives byte for byte. *)
Theorem google_relays_every_chunk imports req k now es s :
  Google.run imports (snd (Google.request imports req k now)) es = Some s ->
  relayed_texts (Google.log s) = transcode_all Utf8.fresh (chunks_read es) /\
  (forallb (forallb is_ascii) (chunks_read es) = true ->
   relayed_texts (Google.log s) = map Utf8.string_of_bytes (chunks_read es)).
Proof.
  intros Hrun.
  apply (run_Relay imports es _ _ []) in Hrun.
  - destruct Hrun as [Hrel _]. simpl in Hrel. split; [assumption|].
    intros Ha. rewrite Hrel. apply transcode_all_ascii; [reflexivity|assumption].
  - apply request_Inv.
  - split; reflexivity.
Qed.

(** ** The sessions of the second variant *)

Lemma request_Inv000 imports req k : Inv000 (snd (Part000.request imports req k)).
Proof. repeat split. Qed.

Lemma step_Inv000 s e s' :
  Inv000 s -> Part000.step s e = Some s' -> Inv000 s'.
Proof.
  destruct s as [tm lg tid iid ifc rej pc0].
  unfold Inv000; simpl. intros (-> & -> & Hhb & H) Hstep.
  destruct pc0.
  - destruct H as (-> & -> & Hcl).
    destruct e; simpl in Hstep; try discriminate.
    + step_done Hstep.
    + unfold Part000.fire in Hstep. simpl in Hstep. rewrite lookup_two in Hstep.
      destruct (Pos.eqb_spec id heartbeat_id) as [->|H2].
      * simpl in Hstep. step_done Hstep.
      * destruct (Pos.eqb_spec id deadline_id) as [->|H1]; [|discriminate].
        simpl in Hstep. step_done Hstep.
    + destruct hasBody; simpl in Hstep; step_done Hstep.
    + step_done Hstep.
  - destruct H as (-> & -> & Hcl).
    destruct e; simpl in Hstep; try discriminate.
    + step_done Hstep.
    + unfold Part000.fire in Hstep. simpl in Hstep. rewrite lookup_two in Hstep.
      destruct (Pos.eqb_spec id heartbeat_id) as [->|H2].
      * simpl in Hstep. step_done Hstep.
      * destruct (Pos.eqb_spec id deadline_id) as [->|H1]; [|discriminate].
        simpl in Hstep. step_done Hstep.
    + step_done Hstep.
    + step_done Hstep.
    + step_done Hstep.
  - destruct H as (-> & Hcl & Hcc).
    destruct e; simpl in Hstep; try discriminate.
    step_done Hstep.
Qed.

Lemma run_Inv000 es : forall s s',
  Inv000 s -> Part000.run s es = Some s' -> Inv000 s'.
Proof.
  induction es as [|e es IH]; simpl; intros s s' HI Hrun.
  - congruence.
  - destruct (Part000.step s e) as [s1|] eqn:Hstep; [|discriminate].
    eauto using step_Inv000.
Qed.

Lemma Inv000_closes s :
  Inv000 s -> closes (Part000.log s) = if settled000 s then 1 else 0.
Proof.
  intros (_ & _ & _ & H). unfold settled000. destruct (Part000.pc s); tauto.
Qed.

Lemma Inv000_settled s :
  Inv000 s -> settled000 s = true ->
  Part000.timers s = ∅ /\ cleanup_then_close (Part000.log s) = true.
Proof.
  intros (_ & _ & _ & H). unfold settled000. destruct (Part000.pc s); try discriminate. tauto.
Qed.

Lemma Inv000_terminal s e :
  Inv000 s -> terminal000 s e = true ->
  exists s', Part000.step s e = Some s' /\ settled000 s' = true.
Proof.
  destruct s as [tm lg tid iid ifc rej pc0].
  unfold Inv000, terminal000, settled000; simpl. intros (-> & -> & Hhb & H) Ht.
  destruct pc0; destruct e; simpl in Ht; try discriminate; simpl.
  all: try (eexists; split; [reflexivity|reflexivity]).
  - apply Pos.eqb_eq in Ht. subst id. destruct H as (-> & _).
    unfold Part000.fire; simpl. rewrite lookup_two. simpl. eexists; split; reflexivity.
  - apply negb_true_iff in Ht. subst. simpl. eexists; split; reflexivity.
  - apply Pos.eqb_eq in Ht. subst id. destruct H as (-> & _).
    unfold Part000.fire; simpl. rewrite lookup_two. simpl. eexists; split; reflexivity.
Qed.

(** No session of the second variant ever writes anything but its
    heartbeat line. *)
Lemma part000_writes_heartbeats_only imports req k es s :
  Part000.run (snd (Part000.request imports req k)) es = Some s ->
  forallb is_heartbeat (frames (Part000.log s)) = true.
Proof.
  intros Hrun. apply run_Inv000 in Hrun; [|apply request_Inv000]. apply Hrun.
Qed.

(** ** The handler *)

Lemma token_absent req :
  headers_get (headers req) "x-goog-api-key" = None ->
  headers_get (headers req) "Authorization" = None ->
  Google.token req = EmptyString.
Proof.
  intros H1 H2. unfold Google.token, Google.bearToken. rewrite H1, H2. reflexivity.
Qed.

Lemma x_goog_api_key_absent req :
  headers_get (headers req) "x-goog-api-key" = None ->
  headers_get (headers req) "Authorization" = None ->
  x_goog_api_key req = EmptyString.
Proof. intros H1 H2. unfold x_goog_api_key. rewrite H1, H2. reflexivity. Qed.

Lemma alt_is_sse_iff req :
  alt_is_sse req = true <-> searchParams_get (searchParams req) "alt" = Some "sse".
Proof.
  unfold alt_is_sse. destruct (searchParams_get (searchParams req) "alt") as [v|].
  - rewrite String.eqb_eq. split; congruence.
  - split; discriminate.
Qed.

(** ** Two complete runs of [google.ts] *)





(** X14: a deadline that fires while the fetch is still pending: the stream holds
    the heartbeats of the wait and one error frame, and is closed. *)
Theorem deadline_while_fetching imports req k now es :
  forallb is_wait es = true ->
  exists s,
    Google.run imports (snd (Google.request imports req k now))
      (es ++ [TimerFires deadline_id]) = Some s /\
    frames (Google.log s) =
      heartbeats (ticks es) ++ [StreamFetchError (abort_message imports)] /\
    closes (Google.log s) = 1 /\
    last (Google.log s) = Some Close /\
    settled s = true.
Proof.
  intros Hw.
  rewrite request_eq. cbn [snd].
  rewrite run_app, (run_waiting _ _ _ _ _ _ _ _ _ _ _ _ Hw).
  unfold Google.run, Google.step, Google.fire. cbn [Google.timers].
  rewrite lookup_two. simpl.
  eexists. split; [reflexivity|].
  unfold settled. simpl.
  rewrite !frames_app, !closes_app, !frames_map_Write, !closes_map_Write.
  rewrite last_cons_snoc. simpl.
  rewrite <- !app_assoc. simpl. rewrite ?app_nil_r. auto.
Qed.


(** ** The claims *)

(** C1: in every session of [google.ts] the frames written so far are
    heartbeat frames followed by frames of the task (time cost, relayed
    chunks, errors), none of which is a heartbeat; and as long as the ticker
    is live only heartbeat frames have been written, so the ticker is stopped
    before the first frame of the task and no heartbeat follows one. *)
Theorem heartbeats_then_relay imports req k now es s :
  Google.run imports (snd (Google.request imports req k now)) es = Some s ->
  (exists hb rest,
      frames (Google.log s) = hb ++ rest /\
      forallb is_heartbeat hb = true /\
      forallb is_spliced rest = true) /\
  (ticker_live (Google.timers s) ->
   forallb is_heartbeat (frames (Google.log s)) = true).
Proof.
  intros HI%reachable_Inv. split.
  - apply phased_split. apply HI.
  - intros Hlive. apply (Inv_live s HI Hlive).
Qed.

Lemma heartbeats_then_relay_witness :
  exists s,
    Google.run sample_cfg sample_session sample_relay = Some s /\
    exists hb rest,
      frames (Google.log s) = hb ++ rest /\
      forallb is_heartbeat hb = true /\
      forallb is_spliced rest = true.
Proof.
  assert (Hrun : exists s, Google.run sample_cfg sample_session sample_relay = Some s)
    by (vm_compute; eexists; reflexivity).
  destruct Hrun as [s Hrun]. exists s. split; [exact Hrun|].
  apply (heartbeats_then_relay sample_cfg sample_req "user-key" 0 sample_relay s Hrun).
Defined.

(** C2: in both files a session calls [close()] exactly once, when it
    settles, and never before; every event that ends a session (end of the
    upstream stream, an upstream failure, the deadline) settles it; and when
    it has settled no timer of the session is left and the log ends with
    [clearTimeout], the guarded [clearInterval] and then [close()]. *)
Theorem closed_exactly_once imports req k now es s es0 s0 :
  Google.run imports (snd (Google.request imports req k now)) es = Some s ->
  Part000.run (snd (Part000.request imports req k)) es0 = Some s0 ->
  (closes (Google.log s) = (if settled s then 1 else 0) /\
   (settled s = true ->
    Google.timers s = ∅ /\ cleanup_then_close (Google.log s) = true) /\
   (forall e, terminal s e = true ->
              exists s', Google.step imports s e = Some s' /\ settled s' = true)) /\
  (closes (Part000.log s0) = (if settled000 s0 then 1 else 0) /\
   (settled000 s0 = true ->
    Part000.timers s0 = ∅ /\ cleanup_then_close (Part000.log s0) = true) /\
   (forall e, terminal000 s0 e = true ->
              exists s', Part000.step s0 e = Some s' /\ settled000 s' = true)).
Proof.
  intros Hrun Hrun0. split.
  - apply reachable_Inv in Hrun.
    auto using Inv_closes, Inv_settled, Inv_terminal.
  - apply run_Inv000 in Hrun0; [|apply request_Inv000].
    auto using Inv000_closes, Inv000_settled, Inv000_terminal.
Qed.

Lemma closed_exactly_once_witness :
  exists s s0,
    Google.run sample_cfg sample_session sample_relay = Some s /\
    Part000.run sample_session000 [FetchResolved 200 "OK" true; ReadDone] = Some s0 /\
    closes (Google.log s) = 1 /\ closes (Part000.log s0) = 1.
Proof.
  assert (Hrun : exists s, Google.run sample_cfg sample_session sample_relay = Some s
                           /\ settled s = true)
    by (vm_compute; eexists; split; reflexivity).
  assert (Hrun0 : exists s0, Part000.run sample_session000
                               [FetchResolved 200 "OK" true; ReadDone] = Some s0
                             /\ settled000 s0 = true)
    by (vm_compute; eexists; split; reflexivity).
  destruct Hrun as (s & Hrun & Hs). destruct Hrun0 as (s0 & Hrun0 & Hs0).
  exists s, s0. split; [exact Hrun|]. split; [exact Hrun0|].
  destruct (closed_exactly_once sample_cfg sample_req "user-key" 0
              sample_relay s [FetchResolved 200 "OK" true; ReadDone] s0
              Hrun Hrun0) as [[H _] [H0 _]].
  rewrite Hs in H. rewrite Hs0 in H0. split; [exact H | exact H0].
Defined.

(** C3, as the code has it: when the upstream answers 500 and its body reads
    "server error", the stream holds the heartbeat frames of the wait, then
    two error frames (the envelope naming status 500, the status text and the
    body, and the frame with the message of the exception thrown after it),
    and is closed; the response keeps status 200. *)
Theorem upstream_500_frames imports req k now statusText hasBody es1 es2 :
  forallb is_wait es1 = true ->
  forallb is_wait es2 = true ->
  exists s,
    Google.run imports (snd (Google.request imports req k now))
      (es1 ++ FetchResolved 500 statusText hasBody
           :: es2 ++ [TextResolved "server error"]) = Some s /\
    frames (Google.log s) =
      heartbeats (ticks es1 + ticks es2)
      ++ [UpstreamError 500 statusText "server error";
          StreamFetchError "[Alive] Upstream fetch failed with status 500"] /\
    closes (Google.log s) = 1 /\
    last (Google.log s) = Some Close /\
    settled s = true /\
    status (fst (Google.request imports req k now)) = 200%N.
Proof.
  intros Hw1 Hw2.
  rewrite request_eq. cbn [fst snd status].
  rewrite run_app, (run_waiting _ _ _ _ _ _ _ _ _ _ _ _ Hw1).
  unfold Google.run at 1; fold (Google.run imports).
  unfold Google.step at 1. cbn [Google.pc].
  change (negb (ok 500)) with true. cbv iota.
  unfold Google.set_pc. cbn [Google.timers Google.clock Google.log Google.timeoutId
    Google.intervalId Google.intervalRealWrite Google.intervalRealWrite_wrote
    Google.nowTime Google.decoder Google.isFirstChunk Google.pc].
  rewrite run_app, (run_waiting _ _ _ _ _ _ _ _ _ _ _ _ Hw2).
  eexists. split; [reflexivity|].
  unfold settled. simpl.
  rewrite !frames_app, !closes_app, !frames_map_Write, !closes_map_Write, heartbeats_add.
  rewrite last_cons_snoc. simpl. rewrite <- !app_assoc. auto.
Qed.

Lemma upstream_500_frames_witness :
  exists s,
    Google.run sample_cfg sample_session
      (sample_silence ++ FetchResolved 500 "Internal Server Error" true
                      :: sample_silence ++ [TextResolved "server error"]) = Some s /\
    error_frames (Google.log s) =
      [UpstreamError 500 "Internal Server Error" "server error";
       StreamFetchError "[Alive] Upstream fetch failed with status 500"].
Proof.
  destruct (upstream_500_frames sample_cfg sample_req "user-key" 0
              "Internal Server Error" true sample_silence sample_silence
              eq_refl eq_refl) as (s & Hrun & Hfr & _).
  exists s. split; [exact Hrun|].
  unfold error_frames. rewrite Hfr. reflexivity.
Defined.

(** C3 as stated fails: the stream of that session holds two error frames,
    not one. *)
Lemma upstream_500_two_error_frames :
  option_map (fun s => error_frames (Google.log s))
    (Google.run sample_cfg sample_session
       [FetchResolved 500 "Internal Server Error" true; TextResolved "server error"]) =
    Some [UpstreamError 500 "Internal Server Error" "server error";
          StreamFetchError "[Alive] Upstream fetch failed with status 500"] /\
  option_map (fun s => length (error_frames (Google.log s)))
    (Google.run sample_cfg sample_session
       [FetchResolved 500 "Internal Server Error" true; TextResolved "server error"]) <>
    Some 1.
Proof. vm_compute. split; [reflexivity|discriminate]. Qed.

(** C4: as long as a session of [google.ts] has not settled, its deadline
    timer of 10 * 60 * 1000 ms is armed; when it fires the upstream call is
    aborted, one error frame with the message of the abort is written into
    the stream, the timers are cleared and the stream is closed.  The
    response was returned with status 200 before and is not touched. *)
Theorem deadline_ends_session imports req k now es s :
  Google.run imports (snd (Google.request imports req k now)) es = Some s ->
  settled s = false ->
  status (fst (Google.request imports req k now)) = 200%N /\
  Google.timers s !! deadline_id = Some deadline_timer /\
  exists s' cleanup,
    Google.step imports s (TimerFires deadline_id) = Some s' /\
    settled s' = true /\
    Google.log s' =
      Google.log s ++ [Abort; Write (StreamFetchError (abort_message imports))]
                   ++ cleanup ++ [Close] /\
    (cleanup = [ClearTimeout (TimerId deadline_id)] \/
     cleanup = [ClearTimeout (TimerId deadline_id); ClearInterval (TimerId heartbeat_id)]) /\
    closes (Google.log s') = 1 /\
    Google.timers s' = ∅.
Proof.
  intros HI%reachable_Inv Hs. split; [reflexivity|].
  destruct (Inv_deadline imports s HI Hs) as (Hlk & s' & cleanup & Hstep & Hs' & Hlog & Hc).
  split; [exact Hlk|]. exists s', cleanup.
  pose proof (step_Inv imports s _ s' HI Hstep) as HI'.
  repeat split; try assumption.
  - rewrite (Inv_closes s' HI'), Hs'. reflexivity.
  - apply (Inv_settled s' HI' Hs').
Qed.

Lemma deadline_ends_session_witness :
  exists s s',
    Google.run sample_cfg sample_session sample_silence = Some s /\
    Google.step sample_cfg s (TimerFires deadline_id) = Some s' /\
    closes (Google.log s') = 1.
Proof.
  assert (Hrun : exists s, Google.run sample_cfg sample_session sample_silence = Some s
                           /\ settled s = false)
    by (vm_compute; eexists; split; reflexivity).
  destruct Hrun as (s & Hrun & Hs).
  destruct (deadline_ends_session sample_cfg sample_req "user-key" 0 sample_silence s
              Hrun Hs) as (_ & _ & s' & cleanup & Hstep & _ & _ & _ & Hcl & _).
  exists s, s'. split; [exact Hrun|]. split; [exact Hstep | exact Hcl].
Defined.

(** C5 fails in the second variant: a chunk of the upstream body is not
    written at all.  Reading [chunk.choices[0]] of the first chunk raises,
    and the session is closed with an empty stream. *)
Theorem part000_drops_the_chunk imports req k st statusText chunk :
  exists s,
    Part000.run (snd (Part000.request imports req k))
      [FetchResolved st statusText true; ReadChunk chunk] = Some s /\
    frames (Part000.log s) = [] /\
    settled000 s = true /\
    closes (Part000.log s) = 1 /\
    Part000.rejected s = true.
Proof. eexists. repeat split. Qed.

(** C6, as the code has it: a request that passes the resolver, has no key
    in the two headers the handler reads and no fallback key gets status 401
    with the body [{error: true, message: "missing GOOGLE_API_KEY in server
    env vars"}]; the resolver is the only thing called, no stream is opened. *)
Theorem missing_key_401 imports req now authResult req1 :
  method req <> "OPTIONS" ->
  auth imports req (ModelProvider_GeminiPro imports) = (authResult, req1) ->
  json_truthy (field "error" authResult) = false ->
  headers_get (headers req1) "x-goog-api-key" = None ->
  headers_get (headers req1) "Authorization" = None ->
  JS.truthy (JS.nullish (googleApiKey (serverConfig imports)) EmptyString) = false ->
  Google.handle imports req now =
  {| Google.response :=
       NextResponse_json
         [("error", JBool true);
          ("message", JStr "missing GOOGLE_API_KEY in server env vars")] 401;
     Google.effects := [CallAuth (ModelProvider_GeminiPro imports)];
     Google.session := None |}.
Proof.
  intros Hm Hauth Herr H1 H2 Hkey. unfold Google.handle.
  apply String.eqb_neq in Hm. rewrite Hm, Hauth, Herr.
  unfold Google.apiKey. rewrite (token_absent _ H1 H2). simpl.
  destruct (googleApiKey (serverConfig imports)) as [k0|]; [|reflexivity].
  simpl in Hkey. rewrite Hkey. reflexivity.
Qed.

Lemma missing_key_401_witness :
  status (Google.response
            (Google.handle (sample_imports None accepted)
               (sample_request "POST" [] []) 0)) = 401%N.
Proof.
  rewrite (missing_key_401 (sample_imports None accepted) (sample_request "POST" [] []) 0
             accepted (sample_request "POST" [] [])).
  - reflexivity.
  - discriminate.
  - reflexivity.
  - reflexivity.
  - reflexivity.
  - reflexivity.
  - reflexivity.
Defined.

(** C6 as stated fails: the body of that 401 is not the one with the message
    "missing API key". *)
Lemma missing_key_message_differs :
  method (sample_request "POST" [] []) <> "OPTIONS" /\
  json_truthy
    (field "error"
       (fst (auth (sample_imports None accepted) (sample_request "POST" [] [])
               (ModelProvider_GeminiPro (sample_imports None accepted))))) = false /\
  headers_get (headers (sample_request "POST" [] [])) "x-goog-api-key" = None /\
  headers_get (headers (sample_request "POST" [] [])) "Authorization" = None /\
  googleApiKey (serverConfig (sample_imports None accepted)) = None /\
  status (Google.response
            (Google.handle (sample_imports None accepted)
               (sample_request "POST" [] []) 0)) = 401%N /\
  responseBody (Google.response
                  (Google.handle (sample_imports None accepted)
                     (sample_request "POST" [] []) 0)) <>
    JsonBody [("error", JBool true); ("message", JStr "missing API key")].
Proof. vm_compute. repeat split; discriminate. Qed.

(** C7: an OPTIONS request is answered with status 200 and the body
    [{body: "OK"}] at once: the resolver is not called, no timer is set, no
    fetch is made and no stream is opened. *)
Theorem options_short_circuit imports req now :
  method req = "OPTIONS" ->
  Google.handle imports req now =
  {| Google.response := NextResponse_json [("body", JStr "OK")] 200;
     Google.effects := [];
     Google.session := None |}.
Proof.
  intros Hm. unfold Google.handle. rewrite Hm. reflexivity.
Qed.

Lemma options_short_circuit_witness :
  Google.handle (sample_imports None refused) (sample_request "OPTIONS" [] []) 0 =
  {| Google.response := NextResponse_json [("body", JStr "OK")] 200;
     Google.effects := [];
     Google.session := None |}.
Proof.
  apply (options_short_circuit (sample_imports None refused)
           (sample_request "OPTIONS" [] []) 0).
  reflexivity.
Defined.

(** C8: the guarded stop of the ticker is idempotent; in every session of
    [google.ts] [close()] is called at most once; and once the ticker has
    been stopped a further stop changes nothing (no effect, no frame), no
    interval is live and no later event adds a heartbeat frame. *)
Theorem stop_and_close_idempotent imports req k now es s :
  Google.run imports (snd (Google.request imports req k now)) es = Some s ->
  (forall s1, Google.stop_ticker (Google.stop_ticker s1) = Google.stop_ticker s1) /\
  closes (Google.log s) <= 1 /\
  (Google.intervalRealWrite s = Null ->
   Google.stop_ticker s = s /\
   ~ ticker_live (Google.timers s) /\
   forall es' s',
     Google.run imports s es' = Some s' ->
     heartbeat_frames (Google.log s') = heartbeat_frames (Google.log s) /\
     closes (Google.log s') <= 1).
Proof.
  intros HI%reachable_Inv. split; [apply stop_ticker_idem|]. split.
  - rewrite (Inv_closes _ HI). destruct (settled s); lia.
  - intros Hn. split; [|split].
    + unfold Google.stop_ticker, Google.stop_real_write. simpl. rewrite Hn. reflexivity.
    + intros Hlive. destruct (Inv_live s HI Hlive) as [Hh _]. congruence.
    + intros es' s' Hrun. split.
      * apply (run_stopped imports es' s s' HI Hn Hrun).
      * rewrite (Inv_closes _ (run_Inv imports es' s s' HI Hrun)).
        destruct (settled s'); lia.
Qed.

Lemma stop_and_close_idempotent_witness :
  exists s,
    Google.run sample_cfg sample_session sample_relay = Some s /\
    Google.intervalRealWrite s = Null /\
    Google.stop_ticker s = s /\
    closes (Google.log s) <= 1.
Proof.
  assert (Hrun : exists s, Google.run sample_cfg sample_session sample_relay = Some s
                           /\ Google.intervalRealWrite s = Null)
    by (vm_compute; eexists; split; reflexivity).
  destruct Hrun as (s & Hrun & Hn).
  destruct (stop_and_close_idempotent sample_cfg sample_req "user-key" 0 sample_relay s
              Hrun) as (_ & Hcl & Hstop).
  exists s. split; [exact Hrun|]. split; [exact Hn|].
  split; [exact (proj1 (Hstop Hn)) | exact Hcl].
Defined.

(** C9, as the code has it: for a request that is not OPTIONS, that the
    resolver accepts and that carries neither header when the handler reads
    them, a configured fallback key lets the handler open the relay (status
    200, no 401), and the x-goog-api-key header sent upstream is the empty
    string; [request] never looks at the key it is given. *)
Theorem fallback_key_not_forwarded imports req now authResult req1 key :
  method req <> "OPTIONS" ->
  auth imports req (ModelProvider_GeminiPro imports) = (authResult, req1) ->
  json_truthy (field "error" authResult) = false ->
  headers_get (headers req1) "x-goog-api-key" = None ->
  headers_get (headers req1) "Authorization" = None ->
  googleApiKey (serverConfig imports) = Some key ->
  JS.truthy key = true ->
  Google.handle imports req now =
  {| Google.response :=
       {| status := 200; responseHeaders := sse_headers; responseBody := ReadableBody |};
     Google.effects :=
       [CallAuth (ModelProvider_GeminiPro imports);
        SetTimeout deadline_id (10 * 60 * 1000);
        SetInterval heartbeat_id (2 * 1000);
        Fetch (fetchUrl imports req1)
          {| init_headers := [("Content-Type", "application/json");
                              ("Cache-Control", "no-store");
                              ("x-goog-api-key", EmptyString)];
             init_method := method req1;
             init_body := body req1;
             redirect := "manual";
             duplex := "half";
             signal := controller_signal |}];
     Google.session := Some (snd (Google.request imports req1 key now)) |} /\
  forall key', Google.request imports req1 key' now = Google.request imports req1 key now.
Proof.
  intros Hm Hauth Herr H1 H2 Hkey Htruthy. split; [|reflexivity].
  unfold Google.handle.
  apply String.eqb_neq in Hm. rewrite Hm, Hauth, Herr.
  unfold Google.apiKey. rewrite (token_absent _ H1 H2). simpl JS.truthy. cbv iota.
  rewrite Hkey, Htruthy. rewrite request_eq. cbn [snd Google.log].
  unfold fetchOptions. rewrite (x_goog_api_key_absent _ H1 H2). reflexivity.
Qed.

Lemma fallback_key_not_forwarded_witness :
  status (Google.response
            (Google.handle (sample_imports (Some "server-key") accepted)
               (sample_request "POST" [] []) 0)) = 200%N.
Proof.
  rewrite (proj1 (fallback_key_not_forwarded
                    (sample_imports (Some "server-key") accepted)
                    (sample_request "POST" [] []) 0
                    accepted (sample_request "POST" [] []) "server-key"
                    ltac:(discriminate) eq_refl eq_refl eq_refl eq_refl eq_refl eq_refl)).
  reflexivity.
Defined.

(** C9 as stated fails: with neither header and a fallback key configured,
    a request the resolver refuses is answered 401, and an OPTIONS request
    is answered without any upstream request being made. *)
Lemma refused_request_gets_401 :
  headers_get (headers (sample_request "POST" [] [])) "x-goog-api-key" = None /\
  headers_get (headers (sample_request "POST" [] [])) "Authorization" = None /\
  googleApiKey (serverConfig (sample_imports (Some "server-key") refused)) =
    Some "server-key" /\
  status (Google.response
            (Google.handle (sample_imports (Some "server-key") refused)
               (sample_request "POST" [] []) 0)) = 401%N /\
  Google.session (Google.handle (sample_imports (Some "server-key") refused)
                    (sample_request "POST" [] []) 0) = None /\
  Google.effects (Google.handle (sample_imports (Some "server-key") accepted)
                    (sample_request "OPTIONS" [] []) 0) = [].
Proof. vm_compute. repeat split. Qed.

(** C10: in both files the URL fetched is the base URL, the rewritten path
    and then "?alt=sse" exactly when the first [alt] parameter of the request
    is "sse"; it is the URL of the one fetch [request] makes, and two requests
    with the same path that agree on that test are fetched from the same URL
    whatever else their query strings hold. *)
Theorem fetch_url_query imports req req' k now :
  pathname req' = pathname req ->
  (searchParams_get (searchParams req') "alt" = Some "sse" <->
   searchParams_get (searchParams req) "alt" = Some "sse") ->
  fetchUrl imports req' = fetchUrl imports req /\
  fetchUrl imports req =
    baseUrl imports +:+ path imports req +:+
    (if decide (searchParams_get (searchParams req) "alt" = Some "sse")
     then "?alt=sse" else EmptyString) /\
  Google.log (snd (Google.request imports req k now)) =
    [SetTimeout deadline_id (10 * 60 * 1000); SetInterval heartbeat_id (2 * 1000);
     Fetch (fetchUrl imports req) (fetchOptions req)] /\
  Part000.log (snd (Part000.request imports req k)) =
    [SetTimeout deadline_id (10 * 60 * 1000); SetInterval heartbeat_id 2000;
     Fetch (fetchUrl imports req) (fetchOptions req)].
Proof.
  intros Hp Halt. repeat split.
  - unfold fetchUrl, path. rewrite Hp. do 2 f_equal.
    destruct (alt_is_sse req') eqn:E', (alt_is_sse req) eqn:E; try reflexivity.
    + apply alt_is_sse_iff, Halt, alt_is_sse_iff in E'. congruence.
    + apply alt_is_sse_iff, Halt, alt_is_sse_iff in E. congruence.
  - unfold fetchUrl. do 2 f_equal.
    destruct (decide (searchParams_get (searchParams req) "alt" = Some "sse")) as [H|H].
    + apply alt_is_sse_iff in H. rewrite H. reflexivity.
    + destruct (alt_is_sse req) eqn:E; [|reflexivity].
      apply alt_is_sse_iff in E. contradiction.
Qed.

Lemma fetch_url_query_witness :
  fetchUrl sample_cfg (sample_request "POST" [] [("alt", "sse")]) =
  fetchUrl sample_cfg sample_req /\
  fetchUrl sample_cfg sample_req =
  "https://generativelanguage.googleapis.com/v1beta/models/gemini-pro:streamGenerateContent?alt=sse".
Proof.
  split.
  - exact (proj1 (fetch_url_query sample_cfg sample_req
                    (sample_request "POST" [] [("alt", "sse")]) "user-key" 0
                    eq_refl (conj (fun _ => eq_refl) (fun _ => eq_refl)))).
  - vm_compute. reflexivity.
Defined.

(** ** The bytes of two runs *)

Example relay_of_sample :
  option_map (fun s => map render (frames (Google.log s)))
    (Google.run sample_cfg sample_session sample_relay) =
  Some [envelope "> Waiting."; envelope "."; envelope " (time cost: 3s)\n\n";
        "data: {}"; "hi"].
Proof. vm_compute. reflexivity. Qed.

Example upstream_500_bytes :
  render (UpstreamError 500 "Internal Server Error" "server error") =
  JS.lit "data: {'candidates':[{'content':{'role':'model','parts':[{'text':'\n\n```json\n{"
  +:+ JS.nl +:+ JS.lit "  'error': true,"
  +:+ JS.nl +:+ JS.lit "  'message': 'Upstream Error: 500 Internal Server Error',"
  +:+ JS.nl +:+ JS.lit "  'body': 'server error'"
  +:+ JS.nl +:+ JS.lit "}\n```'}]},'finishReason':null,'index':0,'safetyRatings':[]}],'promptFeedback':{'safetyRatings':[]}}"
  +:+ JS.nl +:+ JS.nl.
Proof. vm_compute. reflexivity. Qed.

Example split_character_is_held_back :
  transcode_all Utf8.fresh [[Byte.x68; Byte.xc3]; [Byte.xa9; Byte.x21]] =
  [Utf8.string_of_bytes [Byte.x68]; Utf8.string_of_bytes [Byte.xc3; Byte.xa9; Byte.x21]].
Proof. vm_compute. reflexivity. Qed.

(** ** Further properties of the handler *)

(** X1: a request the resolver refuses is answered 401 with the resolver's own
    verdict as body; nothing but the resolver is called. *)
Theorem refused_by_auth imports req now authResult req1 :
  method req <> "OPTIONS" ->
  auth imports req (ModelProvider_GeminiPro imports) = (authResult, req1) ->
  json_truthy (field "error" authResult) = true ->
  Google.handle imports req now =
  {| Google.response := NextResponse_json authResult 401;
     Google.effects := [CallAuth (ModelProvider_GeminiPro imports)];
     Google.session := None |}.
Proof.
  intros Hm Hauth Herr. unfold Google.handle.
  apply String.eqb_neq in Hm. rewrite Hm, Hauth, Herr. reflexivity.
Qed.

Lemma refused_by_auth_witness :
  Google.handle (sample_imports (Some "server-key") refused) sample_req 0 =
  {| Google.response := NextResponse_json refused 401;
     Google.effects := [CallAuth "GeminiPro"];
     Google.session := None |}.
Proof.
  apply (refused_by_auth (sample_imports (Some "server-key") refused) sample_req 0
           refused sample_req).
  - discriminate.
  - reflexivity.
  - reflexivity.
Defined.

(** X2: the handler answers 200 or 401 and nothing else; it opens a relay
    exactly for a request that is not OPTIONS, that the resolver accepts and
    for which a key is found in the headers or in the configuration; and
    when it opens none, it has set no timer and fetched nothing. *)
Theorem relay_opened_iff imports req now :
  (status (Google.response (Google.handle imports req now)) = 200%N \/
   status (Google.response (Google.handle imports req now)) = 401%N) /\
  (Google.session (Google.handle imports req now) <> None <->
   method req <> "OPTIONS" /\
   json_truthy
     (field "error" (fst (auth imports req (ModelProvider_GeminiPro imports)))) = false /\
   JS.truthy
     (JS.nullish
        (Google.apiKey imports (snd (auth imports req (ModelProvider_GeminiPro imports))))
        EmptyString) = true) /\
  (Google.session (Google.handle imports req now) = None ->
   forall e, In e (Google.effects (Google.handle imports req now)) ->
             e = CallAuth (ModelProvider_GeminiPro imports)).
Proof.
  unfold Google.handle.
  destruct (String.eqb_spec (method req) "OPTIONS") as [Hm|Hm].
  { simpl. split; [auto|]. split; [|intros _ e []].
    split; [congruence|]. intros (H & _). contradiction. }
  destruct (auth imports req (ModelProvider_GeminiPro imports)) as [authResult req1].
  cbn [fst snd].
  destruct (json_truthy (field "error" authResult)).
  { simpl. split; [auto|]. split.
    - split; [congruence|]. intros (_ & H & _). discriminate.
    - intros _ e [<-|[]]. reflexivity. }
  destruct (Google.apiKey imports req1) as [key|].
  - cbn [JS.nullish]. destruct (JS.truthy key).
    + rewrite request_eq. cbn [snd Google.response Google.session status Google.effects].
      split; [auto|]. split; [|congruence].
      split; [auto|]. intros _. discriminate.
    + simpl. split; [auto|]. split.
      * split; [congruence|]. intros (_ & _ & H). discriminate.
      * intros _ e [<-|[]]. reflexivity.
  - simpl. split; [auto|]. split.
    + split; [congruence|]. intros (_ & _ & H). discriminate.
    + intros _ e [<-|[]]. reflexivity.
Qed.

Lemma handle_opens imports req now authResult req1 :
  method req <> "OPTIONS" ->
  auth imports req (ModelProvider_GeminiPro imports) = (authResult, req1) ->
  json_truthy (field "error" authResult) = false ->
  JS.truthy (JS.nullish (Google.apiKey imports req1) EmptyString) = true ->
  Google.effects (Google.handle imports req now) =
    [CallAuth (ModelProvider_GeminiPro imports);
     SetTimeout deadline_id (10 * 60 * 1000);
     SetInterval heartbeat_id (2 * 1000);
     Fetch (fetchUrl imports req1) (fetchOptions req1)].
Proof.
  intros Hm Hauth Herr Hkey. unfold Google.handle.
  apply String.eqb_neq in Hm. rewrite Hm, Hauth, Herr.
  destruct (Google.apiKey imports req1) as [key|]; [|discriminate].
  cbn [JS.nullish] in Hkey. rewrite Hkey, request_eq. reflexivity.
Qed.

(** X3: a truthy x-goog-api-key header is sent upstream as it is, whatever the
    Authorization header holds: the handler trims it and strips "Bearer "
    only to decide that a key is there. *)
Theorem key_header_forwarded_as_is imports req now authResult req1 key :
  method req <> "OPTIONS" ->
  auth imports req (ModelProvider_GeminiPro imports) = (authResult, req1) ->
  json_truthy (field "error" authResult) = false ->
  headers_get (headers req1) "x-goog-api-key" = Some key ->
  JS.truthy key = true ->
  JS.truthy (JS.nullish (Google.apiKey imports req1) EmptyString) = true ->
  Google.token req1 = JS.trim (JS.replaceAll (JS.trim key) "Bearer " EmptyString) /\
  Google.effects (Google.handle imports req now) =
    [CallAuth (ModelProvider_GeminiPro imports);
     SetTimeout deadline_id (10 * 60 * 1000);
     SetInterval heartbeat_id (2 * 1000);
     Fetch (fetchUrl imports req1)
       {| init_headers := [("Content-Type", "application/json");
                           ("Cache-Control", "no-store");
                           ("x-goog-api-key", key)];
          init_method := method req1;
          init_body := body req1;
          redirect := "manual";
          duplex := "half";
          signal := controller_signal |}].
Proof.
  intros Hm Hauth Herr Hk Hkey Hfound. split.
  - unfold Google.token, Google.bearToken. rewrite Hk.
    cbn [JS.or_else]. rewrite Hkey. cbn [JS.or_else]. rewrite Hkey. reflexivity.
  - rewrite (handle_opens imports req now authResult req1 Hm Hauth Herr Hfound).
    unfold fetchOptions, x_goog_api_key. rewrite Hk, Hkey. reflexivity.
Qed.

Lemma key_header_forwarded_as_is_witness :
  Google.token sample_bearer_req = "user-key" /\
  exists url opts,
    last (Google.effects (Google.handle sample_cfg sample_bearer_req 0)) =
      Some (Fetch url opts) /\
    In ("x-goog-api-key", "Bearer user-key") (init_headers opts).
Proof.
  destruct (key_header_forwarded_as_is sample_cfg sample_bearer_req 0 accepted
              sample_bearer_req "Bearer user-key"
              ltac:(discriminate) eq_refl eq_refl eq_refl eq_refl eq_refl) as [Ht He].
  split; [rewrite Ht; vm_compute; reflexivity|].
  eexists _, _. rewrite He. split; [reflexivity|]. simpl. auto.
Defined.

Lemma replace_bearer key : JS.replace ("Bearer " +:+ key) "Bearer " EmptyString = key.
Proof. destruct key; reflexivity. Qed.

(** X4: without a key header, the Authorization header is sent upstream with its
    first "Bearer " removed and nothing else: what follows the prefix arrives
    as it is, a second "Bearer " included. *)
Theorem authorization_sent_without_bearer imports req now authResult req1 rest :
  method req <> "OPTIONS" ->
  auth imports req (ModelProvider_GeminiPro imports) = (authResult, req1) ->
  json_truthy (field "error" authResult) = false ->
  JS.truthy (JS.nullish (headers_get (headers req1) "x-goog-api-key") EmptyString) = false ->
  headers_get (headers req1) "Authorization" = Some ("Bearer " +:+ rest) ->
  JS.truthy (JS.nullish (Google.apiKey imports req1) EmptyString) = true ->
  Google.effects (Google.handle imports req now) =
    [CallAuth (ModelProvider_GeminiPro imports);
     SetTimeout deadline_id (10 * 60 * 1000);
     SetInterval heartbeat_id (2 * 1000);
     Fetch (fetchUrl imports req1)
       {| init_headers := [("Content-Type", "application/json");
                           ("Cache-Control", "no-store");
                           ("x-goog-api-key", rest)];
          init_method := method req1;
          init_body := body req1;
          redirect := "manual";
          duplex := "half";
          signal := controller_signal |}].
Proof.
  intros Hm Hauth Herr Hk Ha Hfound.
  rewrite (handle_opens imports req now authResult req1 Hm Hauth Herr Hfound).
  unfold fetchOptions, x_goog_api_key. rewrite Ha.
  destruct (headers_get (headers req1) "x-goog-api-key") as [k0|].
  - cbn [JS.nullish] in Hk. rewrite Hk. cbn [JS.nullish]. rewrite replace_bearer. reflexivity.
  - cbn [JS.nullish]. rewrite replace_bearer. reflexivity.
Qed.

Lemma authorization_sent_without_bearer_witness :
  Google.token sample_authorization_req = "user-key" /\
  exists url opts,
    last (Google.effects (Google.handle sample_cfg sample_authorization_req 0)) =
      Some (Fetch url opts) /\
    In ("x-goog-api-key", "Bearer user-key") (init_headers opts).
Proof.
  split; [vm_compute; reflexivity|].
  eexists _, _.
  rewrite (authorization_sent_without_bearer sample_cfg sample_authorization_req 0 accepted
             sample_authorization_req "Bearer user-key"
             ltac:(discriminate) eq_refl eq_refl eq_refl eq_refl eq_refl).
  split; [reflexivity|]. simpl. auto.
Defined.

(** X5: of the inbound headers only the two key headers reach the upstream
    request: requests that agree on method, body and these two headers get
    the same options, which hold three headers. *)
Theorem only_key_headers_forwarded req req' :
  method req' = method req ->
  body req' = body req ->
  headers_get (headers req') "x-goog-api-key" = headers_get (headers req) "x-goog-api-key" ->
  headers_get (headers req') "Authorization" = headers_get (headers req) "Authorization" ->
  fetchOptions req' = fetchOptions req /\
  map fst (init_headers (fetchOptions req)) =
    ["Content-Type"; "Cache-Control"; "x-goog-api-key"].
Proof.
  intros Hm Hb Hk Ha. split; [|reflexivity].
  unfold fetchOptions, x_goog_api_key. rewrite Hm, Hb, Hk, Ha. reflexivity.
Qed.

Lemma only_key_headers_forwarded_witness :
  fetchOptions sample_cookie_req = fetchOptions sample_req.
Proof.
  exact (proj1 (only_key_headers_forwarded sample_req sample_cookie_req
                  eq_refl eq_refl eq_refl eq_refl)).
Defined.

(** ** Further properties of the upstream URL *)

Lemma prefix_nil s : String.prefix EmptyString s = true.
Proof. destruct s; reflexivity. Qed.

Lemma prefix_app p s : String.prefix p (p +:+ s) = true.
Proof.
  induction p as [|c p IH]; simpl; [apply prefix_nil|].
  destruct (ascii_dec c c); [assumption|contradiction].
Qed.

Lemma replaceAll_go_skip p : forall s pat rep,
  JS.replaceAll_go (String.length p) (p +:+ s) pat rep = JS.replaceAll_go 0 s pat rep.
Proof.
  induction p as [|c p IH]; intros s pat rep; simpl; [reflexivity|apply IH].
Qed.

Lemma replaceAll_prefix pat s :
  pat <> EmptyString ->
  JS.replaceAll (pat +:+ s) pat EmptyString = JS.replaceAll s pat EmptyString.
Proof.
  destruct pat as [|c pat]; [contradiction|]. intros _.
  unfold JS.replaceAll.
  change (String c pat +:+ s) with (String c (pat +:+ s)).
  cbn [JS.replaceAll_go].
  change (String c (pat +:+ s)) with (String c pat +:+ s).
  rewrite prefix_app.
  replace (String.length (String c pat) - 1) with (String.length pat) by (simpl; lia).
  rewrite replaceAll_go_skip. reflexivity.
Qed.

Lemma replaceAll_absent pat rep s :
  pat <> EmptyString -> occurs pat s = false -> JS.replaceAll s pat rep = s.
Proof.
  destruct pat as [|c pat]; [contradiction|]. intros _.
  unfold JS.replaceAll.
  induction s as [|a s IH]; intros Hocc; [reflexivity|].
  cbn [occurs] in Hocc. apply orb_false_iff in Hocc as [Hp Hs].
  cbn [JS.replaceAll_go]. rewrite Hp, (IH Hs). reflexivity.
Qed.

(** X6: the route prefix is cut out of the path: a path that starts with it
    loses it, further occurrences go as well, and a remainder that does not
    hold it is the path fetched. *)
Theorem path_without_route_prefix imports req rest :
  ApiPath_Google imports <> EmptyString ->
  pathname req = ApiPath_Google imports +:+ rest ->
  path imports req = JS.replaceAll rest (ApiPath_Google imports) EmptyString /\
  (occurs (ApiPath_Google imports) rest = false ->
   path imports req = rest /\
   fetchUrl imports req =
     baseUrl imports +:+ rest +:+ (if alt_is_sse req then "?alt=sse" else EmptyString)).
Proof.
  intros Hne Hp. unfold fetchUrl, path. rewrite Hp, (replaceAll_prefix _ _ Hne).
  split; [reflexivity|]. intros Hocc.
  rewrite (replaceAll_absent _ _ _ Hne Hocc). split; reflexivity.
Qed.

Lemma path_without_route_prefix_witness :
  path sample_cfg sample_req = "/v1beta/models/gemini-pro:streamGenerateContent".
Proof.
  apply (path_without_route_prefix sample_cfg sample_req
           "/v1beta/models/gemini-pro:streamGenerateContent").
  - discriminate.
  - reflexivity.
  - vm_compute. reflexivity.
Defined.

Lemma prefix_one_rev_app x s : forall c acc acc',
  String.prefix (String x EmptyString) (String.rev_app (String c s) acc) =
  String.prefix (String x EmptyString) (String.rev_app (String c s) acc').
Proof.
  induction s as [|c' s IH]; intros c acc acc'.
  - cbn [String.rev_app String.prefix].
    destruct (ascii_dec x c); [|reflexivity]. rewrite !prefix_nil. reflexivity.
  - change (String.rev_app (String c (String c' s)) acc)
      with (String.rev_app (String c' s) (String c acc)).
    change (String.rev_app (String c (String c' s)) acc')
      with (String.rev_app (String c' s) (String c acc')).
    apply IH.
Qed.

Lemma slice_then_slash s :
  JS.endsWith s "/" = true -> JS.slice_0_m1 s +:+ "/" = s.
Proof.
  unfold JS.endsWith, JS.slice_0_m1, String.rev.
  change (String.rev_app "/" EmptyString) with "/"%string.
  induction s as [|c s IH]; [discriminate|].
  destruct s as [|c' s'].
  - cbn [String.rev_app String.prefix].
    destruct (ascii_dec "/" c) as [<-|]; [reflexivity|discriminate].
  - intros H.
    change (String.rev_app (String c (String c' s')) EmptyString)
      with (String.rev_app (String c' s') (String c EmptyString)) in H.
    rewrite (prefix_one_rev_app _ _ _ _ EmptyString) in H.
    specialize (IH H).
    replace (String.length (String c (String c' s')) - 1)
      with (S (String.length (String c' s') - 1)) by (simpl; lia).
    set (n := String.length (String c' s') - 1) in *.
    change (String c (substring 0 n (String c' s') +:+ "/") = String c (String c' s')).
    f_equal. exact IH.
Qed.

Lemma prefix_http_slash x :
  String.prefix "http" (x +:+ "/") = true -> String.prefix "http" x = true.
Proof.
  destruct x as [|a [|b [|c [|d x]]]]; intros H;
    repeat match type of H with
           | context [String.prefix (String ?u ?p) (String ?v ?t +:+ ?r)] =>
               change (String.prefix (String u p) (String v t +:+ r))
                 with (if ascii_dec u v then String.prefix p (t +:+ r) else false) in H
           | context [String.prefix (String ?u ?p) (EmptyString +:+ String ?v ?t)] =>
               change (String.prefix (String u p) (EmptyString +:+ String v t))
                 with (if ascii_dec u v then String.prefix p t else false) in H
           | context [String.prefix (String ?u ?p) EmptyString] =>
               change (String.prefix (String u p) EmptyString) with false in H
           | context [ascii_dec ?u ?v] => destruct (ascii_dec u v); try discriminate H
           end;
    try discriminate; subst; simpl; apply prefix_nil.
Qed.

Lemma slice_keeps_http s :
  JS.startsWith s "http" = true -> JS.endsWith s "/" = true ->
  JS.startsWith (JS.slice_0_m1 s) "http" = true.
Proof.
  intros Hs He. pose proof (slice_then_slash s He) as Heq.
  unfold JS.startsWith in *. rewrite <- Heq in Hs.
  apply prefix_http_slash, Hs.
Qed.

Lemma scheme_added b0 :
  JS.startsWith (if negb (JS.startsWith b0 "http") then "https://" +:+ b0 else b0) "http"
  = true.
Proof. destruct (JS.startsWith b0 "http") eqn:E; simpl; [exact E|reflexivity]. Qed.

(** X7: the base URL always starts with "http", a configured URL without that
    prefix getting "https://" in front; and exactly one trailing slash is cut
    from it, so that putting the slash back gives the URL before the cut. *)
Theorem baseUrl_normalised imports :
  JS.startsWith (baseUrl imports) "http" = true /\
  (JS.endsWith (schemed_url imports) "/" = true ->
   baseUrl imports +:+ "/" = schemed_url imports) /\
  (JS.endsWith (schemed_url imports) "/" = false ->
   baseUrl imports = schemed_url imports).
Proof.
  assert (Hb : baseUrl imports =
               if JS.endsWith (schemed_url imports) "/"
               then JS.slice_0_m1 (schemed_url imports) else schemed_url imports)
    by reflexivity.
  assert (Hh : JS.startsWith (schemed_url imports) "http" = true)
    by (unfold schemed_url; apply scheme_added).
  repeat split.
  - rewrite Hb. destruct (JS.endsWith (schemed_url imports) "/") eqn:E; [|exact Hh].
    apply slice_keeps_http; assumption.
  - intros E. rewrite Hb, E. apply slice_then_slash, E.
  - intros E. rewrite Hb, E. reflexivity.
Qed.

Lemma baseUrl_normalised_witness :
  baseUrl sample_cfg +:+ "/" = "https://generativelanguage.googleapis.com/".
Proof.
  apply (proj1 (proj2 (baseUrl_normalised sample_cfg))).
  vm_compute. reflexivity.
Defined.

(** ** Further properties of the relay of [google.ts] *)

(** X8: while the fetch is pending the interval alone writes: after any wait
    the stream holds one frame per firing, "> Waiting." first and "." from
    then on, and nothing is closed. *)
Theorem heartbeats_while_pending imports req k now es :
  forallb is_wait es = true ->
  exists s,
    Google.run imports (snd (Google.request imports req k now)) es = Some s /\
    frames (Google.log s) = heartbeats (ticks es) /\
    Google.pc s = Google.AwaitFetch /\
    closes (Google.log s) = 0 /\
    Google.clock s = (now + elapsed es)%Z.
Proof.
  intros Hw. rewrite request_eq. cbn [snd].
  rewrite (run_waiting _ _ _ _ _ _ _ _ _ _ _ _ Hw).
  eexists. split; [reflexivity|]. simpl.
  rewrite !frames_map_Write, !closes_map_Write. auto.
Qed.

Lemma heartbeats_while_pending_witness :
  exists s,
    Google.run sample_cfg sample_session
      [TimerFires heartbeat_id; Elapse 2000; TimerFires heartbeat_id;
       Elapse 2000; TimerFires heartbeat_id] = Some s /\
    map render (frames (Google.log s)) = [envelope "> Waiting."; envelope "."; envelope "."].
Proof.
  destruct (heartbeats_while_pending sample_cfg sample_req "user-key" 0
              [TimerFires heartbeat_id; Elapse 2000; TimerFires heartbeat_id;
               Elapse 2000; TimerFires heartbeat_id] eq_refl) as (s & Hrun & Hfr & _).
  exists s. split; [exact Hrun|]. rewrite Hfr. reflexivity.
Defined.

(** X11: a fetch that fails (the upstream cannot be reached): the stream holds
    the heartbeats of the wait and one error frame with the message of the
    failure, and is closed; no time-cost frame is written. *)
Theorem fetch_failure_frames imports req k now es message :
  forallb is_wait es = true ->
  exists s,
    Google.run imports (snd (Google.request imports req k now))
      (es ++ [FetchRejected message]) = Some s /\
    frames (Google.log s) = heartbeats (ticks es) ++ [StreamFetchError message] /\
    closes (Google.log s) = 1 /\
    last (Google.log s) = Some Close /\
    Google.timers s = ∅.
Proof.
  intros Hw. rewrite request_eq. cbn [snd].
  rewrite run_app, (run_waiting _ _ _ _ _ _ _ _ _ _ _ _ Hw).
  eexists. split; [reflexivity|]. simpl.
  rewrite !frames_app, !closes_app, !frames_map_Write, !closes_map_Write.
  rewrite last_cons_snoc. simpl. rewrite <- !app_assoc. simpl. rewrite ?app_nil_r.
  repeat split; reflexivity.
Qed.

Lemma fetch_failure_frames_witness :
  exists s,
    Google.run sample_cfg sample_session (sample_silence ++ [FetchRejected "fetch failed"])
      = Some s /\
    map render (frames (Google.log s)) =
      [envelope "> Waiting."; render (StreamFetchError "fetch failed")].
Proof.
  destruct (fetch_failure_frames sample_cfg sample_req "user-key" 0 sample_silence
              "fetch failed" eq_refl) as (s & Hrun & Hfr & _).
  exists s. split; [exact Hrun|]. rewrite Hfr. reflexivity.
Defined.

(** X12: an ok response without a body (a 204, say): [res.body.getReader()]
    raises before the loop is entered, so the stream holds the heartbeats,
    one error frame with the message of that [TypeError], and no time-cost
    frame. *)
Theorem bodyless_response_frames imports req k now es st statusText :
  forallb is_wait es = true ->
  ok st = true ->
  exists s,
    Google.run imports (snd (Google.request imports req k now))
      (es ++ [FetchResolved st statusText false]) = Some s /\
    frames (Google.log s) =
      heartbeats (ticks es) ++ [StreamFetchError (null_body_message imports)] /\
    closes (Google.log s) = 1 /\
    last (Google.log s) = Some Close /\
    Google.timers s = ∅.
Proof.
  intros Hw Hok. rewrite request_eq. cbn [snd].
  rewrite run_app, (run_waiting _ _ _ _ _ _ _ _ _ _ _ _ Hw).
  unfold Google.run, Google.step. cbn [Google.pc]. rewrite Hok. cbn [negb].
  eexists. split; [reflexivity|]. simpl.
  rewrite !frames_app, !closes_app, !frames_map_Write, !closes_map_Write.
  rewrite last_cons_snoc. simpl. rewrite <- !app_assoc. simpl. rewrite ?app_nil_r.
  repeat split; reflexivity.
Qed.

Lemma bodyless_response_frames_witness :
  exists s,
    Google.run sample_cfg sample_session [FetchResolved 204 "No Content" false] = Some s /\
    frames (Google.log s) =
      [StreamFetchError "Cannot read properties of null (reading 'getReader')"].
Proof.
  destruct (bodyless_response_frames sample_cfg sample_req "user-key" 0 []
              204%N "No Content" eq_refl eq_refl) as (s & Hrun & Hfr & _).
  exists s. split; [exact Hrun|]. rewrite Hfr. reflexivity.
Defined.

(** X13: a response that is not ok whose body cannot be read: only the frame of
    the [catch] block is written, the envelope frame with status and body is
    not. *)
Theorem unreadable_error_body_frames imports req k now es1 es2 st statusText hasBody message :
  forallb is_wait es1 = true ->
  forallb is_wait es2 = true ->
  ok st = false ->
  exists s,
    Google.run imports (snd (Google.request imports req k now))
      (es1 ++ FetchResolved st statusText hasBody :: es2 ++ [TextRejected message]) = Some s /\
    frames (Google.log s) =
      heartbeats (ticks es1 + ticks es2) ++ [StreamFetchError message] /\
    closes (Google.log s) = 1 /\
    last (Google.log s) = Some Close.
Proof.
  intros Hw1 Hw2 Hok. rewrite request_eq. cbn [snd].
  rewrite run_app, (run_waiting _ _ _ _ _ _ _ _ _ _ _ _ Hw1).
  unfold Google.run at 1; fold (Google.run imports).
  unfold Google.step at 1. cbn [Google.pc]. rewrite Hok. cbn [negb].
  unfold Google.set_pc. cbn [Google.timers Google.clock Google.log Google.timeoutId
    Google.intervalId Google.intervalRealWrite Google.intervalRealWrite_wrote
    Google.nowTime Google.decoder Google.isFirstChunk Google.pc].
  rewrite run_app, (run_waiting _ _ _ _ _ _ _ _ _ _ _ _ Hw2).
  eexists. split; [reflexivity|]. simpl.
  rewrite !frames_app, !closes_app, !frames_map_Write, !closes_map_Write, heartbeats_add.
  rewrite last_cons_snoc. simpl. rewrite <- !app_assoc. auto.
Qed.

Lemma unreadable_error_body_frames_witness :
  exists s,
    Google.run sample_cfg sample_session
      (sample_silence ++ FetchResolved 502 "Bad Gateway" true
                      :: [] ++ [TextRejected "terminated"]) = Some s /\
    error_frames (Google.log s) = [StreamFetchError "terminated"].
Proof.
  destruct (unreadable_error_body_frames sample_cfg sample_req "user-key" 0
              sample_silence [] 502%N "Bad Gateway" true "terminated"
              eq_refl eq_refl eq_refl) as (s & Hrun & Hfr & _).
  exists s. split; [exact Hrun|]. unfold error_frames. rewrite Hfr. reflexivity.
Defined.



(** ** After the stream is closed *)

Lemma step_settled imports s e s' :
  Inv s -> settled s = true ->
  Google.step imports s e = Some s' ->
  (exists ms, e = Elapse ms) /\ Google.log s' = Google.log s /\
  Google.timers s' = Google.timers s /\ settled s' = true.
Proof.
  destruct s as [tm ck lg tid iid irw wrote nt dec ifc pc0].
  unfold Inv, settled; simpl. intros (_ & _ & _ & H) Hs Hstep.
  destruct pc0; try discriminate. destruct H as (-> & _).
  destruct e; simpl in Hstep; try discriminate.
  inversion Hstep; subst. simpl. eauto.
Qed.

(** X17: once a session of [google.ts] has closed its stream nothing happens
    any more: no timer is left to fire, no upstream event is awaited, so the
    only events that can follow are the passing of time, and they add no
    effect: nothing is ever written after [close()]. *)
Theorem settled_is_final imports req k now es s es' s' :
  Google.run imports (snd (Google.request imports req k now)) es = Some s ->
  settled s = true ->
  Google.run imports s es' = Some s' ->
  Google.log s' = Google.log s /\ settled s' = true /\
  forall e, In e es' -> exists ms, e = Elapse ms.
Proof.
  intros HI%reachable_Inv. revert s HI.
  induction es' as [|e es' IH]; simpl; intros s HI Hs Hrun.
  - inversion Hrun; subst. split; [reflexivity|]. split; [assumption|]. intros e [].
  - destruct (Google.step imports s e) as [s1|] eqn:Hstep; [|discriminate].
    destruct (step_settled _ _ _ _ HI Hs Hstep) as (He & Hlog & _ & Hs1).
    destruct (IH s1 (step_Inv _ _ _ _ HI Hstep) Hs1 Hrun) as (Hl & Hs' & Hall).
    split; [congruence|]. split; [assumption|].
    intros e0 [<-|Hin]; auto.
Qed.

Lemma settled_is_final_witness :
  exists s s',
    Google.run sample_cfg sample_session sample_relay = Some s /\
    Google.run sample_cfg s [Elapse 1000; Elapse 5000] = Some s' /\
    Google.log s' = Google.log s.
Proof.
  assert (Hrun : exists s, Google.run sample_cfg sample_session sample_relay = Some s
                           /\ settled s = true)
    by (vm_compute; eexists; split; reflexivity).
  destruct Hrun as (s & Hrun & Hs).
  assert (Hrun' : exists s', Google.run sample_cfg s [Elapse 1000; Elapse 5000] = Some s')
    by (simpl; eauto).
  destruct Hrun' as (s' & Hrun').
  exists s, s'. split; [exact Hrun|]. split; [exact Hrun'|].
  exact (proj1 (settled_is_final sample_cfg sample_req "user-key" 0 sample_relay s
                  [Elapse 1000; Elapse 5000] s' Hrun Hs Hrun')).
Defined.


Lemma deadline_while_fetching_witness :
  exists s,
    Google.run sample_cfg sample_session (sample_silence ++ [TimerFires deadline_id]) = Some s /\
    frames (Google.log s) =
      [RealWriteKeepAlive "> Waiting."; StreamFetchError (abort_message sample_cfg)].
Proof.
  destruct (deadline_while_fetching sample_cfg sample_req "user-key" 0 sample_silence eq_refl)
    as (s & Hrun & Hfr & _).
  exists s. split; [exact Hrun|]. rewrite Hfr. reflexivity.
Defined.

Lemma google_relays_every_chunk_witness :
  exists s,
    Google.run sample_cfg sample_session sample_relay = Some s /\
    relayed_texts (Google.log s) = transcode_all Utf8.fresh (chunks_read sample_relay).
Proof.
  assert (Hrun : exists s, Google.run sample_cfg sample_session sample_relay = Some s)
    by (vm_compute; eexists; reflexivity).
  destruct Hrun as (s & Hrun).
  exists s. split; [exact Hrun|].
  exact (proj1 (google_relays_every_chunk sample_cfg sample_req "user-key" 0 sample_relay s Hrun)).
Defined.

(** ** The relayed bytes do not depend on how the upstream cuts its chunks *)

Lemma with_bom_same d : with_bom (Utf8.bom_seen d) d = d.
Proof. destruct d; reflexivity. Qed.

Lemma lead_bom b d x :
  Utf8.lead (with_bom b d) x = (with_bom b (fst (Utf8.lead d x)), snd (Utf8.lead d x)).
Proof.
  unfold Utf8.lead.
  repeat match goal with
         | |- context [if ?c then _ else _] => destruct c
         end; reflexivity.
Qed.

Lemma handler_bom b d x :
  Utf8.handler (with_bom b d) x =
  (with_bom b (fst (Utf8.handler d x)), snd (Utf8.handler d x)).
Proof.
  unfold Utf8.handler. cbn [with_bom Utf8.bytes_needed Utf8.lower_boundary
    Utf8.upper_boundary Utf8.code_point Utf8.bytes_seen Utf8.bom_seen].
  destruct (Utf8.bytes_needed d =? 0)%N; [apply lead_bom|].
  destruct (negb _).
  - change (Utf8.reset (with_bom b d)) with (with_bom b (Utf8.reset d)).
    rewrite lead_bom. destruct (Utf8.lead (Utf8.reset d) x). reflexivity.
  - destruct (_ =? _)%N; reflexivity.
Qed.

Lemma utf8_run_bom b bs : forall d,
  Utf8.run (with_bom b d) bs = (with_bom b (fst (Utf8.run d bs)), snd (Utf8.run d bs)).
Proof.
  induction bs as [|x bs IH]; intros d; [reflexivity|].
  cbn [Utf8.run]. rewrite handler_bom.
  destruct (Utf8.handler d (Byte.to_N x)) as [d1 o1]. cbn [fst snd].
  rewrite IH. destruct (Utf8.run d1 bs) as [d2 o2]. reflexivity.
Qed.

Lemma utf8_run_app a b : forall d,
  Utf8.run d (a ++ b) =
  (fst (Utf8.run (fst (Utf8.run d a)) b), snd (Utf8.run d a) ++ snd (Utf8.run (fst (Utf8.run d a)) b)).
Proof.
  induction a as [|x a IH]; intros d.
  - cbn. destruct (Utf8.run d b); reflexivity.
  - cbn [app Utf8.run]. destruct (Utf8.handler d (Byte.to_N x)) as [d1 o1].
    rewrite IH. destruct (Utf8.run d1 a) as [d2 o2]. cbn [fst snd].
    destruct (Utf8.run d2 b) as [d3 o3]. cbn [fst snd]. rewrite app_assoc. reflexivity.
Qed.

Lemma lead_keeps_bom d x : Utf8.bom_seen (fst (Utf8.lead d x)) = Utf8.bom_seen d.
Proof.
  unfold Utf8.lead.
  repeat match goal with
         | |- context [if ?c then _ else _] => destruct c
         end; reflexivity.
Qed.

Lemma handler_keeps_bom d x : Utf8.bom_seen (fst (Utf8.handler d x)) = Utf8.bom_seen d.
Proof.
  unfold Utf8.handler.
  destruct (Utf8.bytes_needed d =? 0)%N; [apply lead_keeps_bom|].
  destruct (negb _).
  - pose proof (lead_keeps_bom (Utf8.reset d) x) as H.
    destruct (Utf8.lead (Utf8.reset d) x). exact H.
  - destruct (_ =? _)%N; reflexivity.
Qed.

Lemma utf8_run_keeps_bom bs : forall d,
  Utf8.bom_seen (fst (Utf8.run d bs)) = Utf8.bom_seen d.
Proof.
  induction bs as [|x bs IH]; intros d; [reflexivity|].
  cbn [Utf8.run]. pose proof (handler_keeps_bom d (Byte.to_N x)) as H.
  destruct (Utf8.handler d (Byte.to_N x)) as [d1 o1]. cbn [fst] in H.
  pose proof (IH d1) as H1. destruct (Utf8.run d1 bs) as [d2 o2]. cbn [fst] in *.
  congruence.
Qed.

Lemma string_of_list_ascii_append l1 l2 :
  string_of_list_ascii (l1 ++ l2) = string_of_list_ascii l1 +:+ string_of_list_ascii l2.
Proof. induction l1 as [|c l1 IH]; [reflexivity|]. cbn. rewrite IH. reflexivity. Qed.

Lemma encode_app a b : Utf8.encode (a ++ b) = Utf8.encode a +:+ Utf8.encode b.
Proof.
  unfold Utf8.encode.
  rewrite map_app, concat_app, map_app. apply string_of_list_ascii_append.
Qed.

Lemma serialize_seen d cps :
  Utf8.bom_seen d = true -> Utf8.serialize d cps = (d, cps).
Proof. intros H. destruct cps; [reflexivity|]. unfold Utf8.serialize. rewrite H. reflexivity. Qed.

Lemma serialize_unseen d cp r :
  Utf8.bom_seen d = false ->
  Utf8.serialize d (cp :: r) = (with_bom true d, if (cp =? 65279)%N then r else cp :: r).
Proof. intros H. unfold Utf8.serialize. rewrite H. reflexivity. Qed.

(** Decoding a chunk and then the next one yields the text of decoding
    the two as one chunk. *)
Lemma transcode_app d a b :
  Utf8.transcode d (a ++ b) =
  (fst (Utf8.transcode (fst (Utf8.transcode d a)) b),
   snd (Utf8.transcode d a) +:+ snd (Utf8.transcode (fst (Utf8.transcode d a)) b)).
Proof.
  unfold Utf8.transcode. rewrite utf8_run_app.
  pose proof (utf8_run_keeps_bom a d) as Ha.
  destruct (Utf8.run d a) as [da oa]. cbn [fst snd] in *.
  pose proof (utf8_run_keeps_bom b da) as Hb.
  destruct oa as [|cp r].
  - cbn [Utf8.serialize app fst snd].
    destruct (Utf8.run da b) as [db ob]. cbn [fst snd].
    destruct (Utf8.serialize db ob). reflexivity.
  - destruct (Utf8.bom_seen da) eqn:Hbom.
    + rewrite (serialize_seen da (cp :: r) Hbom). cbn [fst snd].
      destruct (Utf8.run da b) as [db ob]. cbn [fst snd] in *.
      rewrite (serialize_seen db ob Hb), (serialize_seen db _ Hb). cbn [fst snd].
      rewrite encode_app. reflexivity.
    + rewrite (serialize_unseen da cp r Hbom). cbn [fst snd].
      rewrite utf8_run_bom.
      destruct (Utf8.run da b) as [db ob]. cbn [fst snd] in *.
      rewrite (serialize_seen (with_bom true db) ob eq_refl). cbn [fst snd].
      cbn [app]. rewrite (serialize_unseen db cp (r ++ ob) Hb). cbn [fst snd].
      destruct (cp =? 65279)%N; rewrite <- encode_app; reflexivity.
Qed.

Lemma transcode_nil d : Utf8.transcode d [] = (d, EmptyString).
Proof. reflexivity. Qed.

Lemma transcode_concat cs : forall d,
  joined (transcode_all d cs) = snd (Utf8.transcode d (concat cs)) /\
  decoder_after d cs = fst (Utf8.transcode d (concat cs)).
Proof.
  induction cs as [|c cs IH]; intros d.
  - split; reflexivity.
  - cbn [concat transcode_all decoder_after]. rewrite transcode_app.
    destruct (Utf8.transcode d c) as [d1 t1]. cbn [fst snd joined].
    destruct (IH d1) as [-> ->]. split; reflexivity.
Qed.

Lemma joined_relayed imports req k now es s :
  Google.run imports (snd (Google.request imports req k now)) es = Some s ->
  joined (relayed_texts (Google.log s)) =
    snd (Utf8.transcode Utf8.fresh (concat (chunks_read es))).
Proof.
  intros Hrun.
  apply (run_Relay imports es _ _ []) in Hrun.
  - destruct Hrun as [Hrel _]. simpl in Hrel. rewrite Hrel.
    apply transcode_concat.
  - apply request_Inv.
  - split; reflexivity.
Qed.

(** X16: the bytes [google.ts] relays, put end to end, are the re-encoded
    decoding of the upstream bytes put end to end: where the upstream cuts
    its chunks (even inside a character) and what else happens in between
    makes no difference to what the client receives of the body. *)
Theorem relay_independent_of_chunking imports req k now es s :
  Google.run imports (snd (Google.request imports req k now)) es = Some s ->
  joined (relayed_texts (Google.log s)) =
    snd (Utf8.transcode Utf8.fresh (concat (chunks_read es))) /\
  forall req' k' now' es' s',
    Google.run imports (snd (Google.request imports req' k' now')) es' = Some s' ->
    concat (chunks_read es') = concat (chunks_read es) ->
    joined (relayed_texts (Google.log s')) = joined (relayed_texts (Google.log s)).
Proof.
  intros Hrun. split; [apply (joined_relayed _ _ _ _ _ _ Hrun)|].
  intros req' k' now' es' s' Hrun' Hc.
  rewrite (joined_relayed _ _ _ _ _ _ Hrun'), (joined_relayed _ _ _ _ _ _ Hrun), Hc.
  reflexivity.
Qed.

Lemma relay_independent_of_chunking_witness :
  exists s,
    Google.run sample_cfg sample_session
      [FetchResolved 200 "OK" true;
       ReadChunk [x48; xc3]%byte; ReadChunk [xa9; x21]%byte; ReadDone] = Some s /\
    relayed_texts (Google.log s) = ["H"; Utf8.string_of_bytes [xc3; xa9; x21]%byte] /\
    joined (relayed_texts (Google.log s)) = Utf8.string_of_bytes [x48; xc3; xa9; x21]%byte.
Proof.
  assert (Hrun : exists s,
             Google.run sample_cfg sample_session
               [FetchResolved 200 "OK" true;
                ReadChunk [x48; xc3]%byte; ReadChunk [xa9; x21]%byte; ReadDone] = Some s /\
             relayed_texts (Google.log s) = ["H"; Utf8.string_of_bytes [xc3; xa9; x21]%byte])
    by (vm_compute; eexists; split; reflexivity).
  destruct Hrun as (s & Hrun & Hrel).
  exists s. split; [exact Hrun|]. split; [exact Hrel|].
  exact (proj1 (relay_independent_of_chunking sample_cfg sample_req "user-key" 0 _ s Hrun)).
Defined.

(** ** Further properties of the second variant *)

Lemma step000_frames s e s' :
  Part000.step s e = Some s' ->
  exists l, Part000.log s' = Part000.log s ++ l /\
            forallb is_waiting_line (frames l) = true.
Proof.
  destruct s as [tm lg tid iid ifc rej pc0].
  destruct e; simpl; intros Hstep.
  - inversion Hstep; subst. exists []. rewrite app_nil_r. auto.
  - unfold Part000.fire in Hstep. simpl in Hstep.
    destruct (tm !! id) as [[dl rp cb]|]; [|discriminate]. simpl in Hstep.
    destruct cb; try discriminate; inversion Hstep; subst; clear Hstep.
    + unfold Part000.abort. destruct rp; simpl; destruct pc0; simpl;
        destruct (handle_truthy iid); simpl; rewrite <- ?app_assoc;
        eexists; split; reflexivity.
    + destruct rp; simpl; eexists; split; reflexivity.
  - destruct pc0; try discriminate. destruct hasBody; inversion Hstep; subst; simpl.
    + exists []. rewrite app_nil_r. auto.
    + rewrite <- ?app_assoc. destruct (handle_truthy iid); simpl; rewrite <- ?app_assoc;
        eexists; split; reflexivity.
  - destruct pc0; try discriminate. inversion Hstep; subst; simpl.
    destruct (handle_truthy iid); simpl; rewrite <- ?app_assoc; eexists; split; reflexivity.
  - discriminate.
  - discriminate.
  - destruct pc0; try discriminate. inversion Hstep; subst; clear Hstep.
    unfold Part000.loop_body. cbn [Part000.chunk_text Part000.choices].
    destruct ifc; simpl; destruct (handle_truthy iid); simpl; rewrite <- ?app_assoc;
      eexists; split; reflexivity.
  - destruct pc0; try discriminate. inversion Hstep; subst; simpl.
    destruct (handle_truthy iid); simpl; rewrite <- ?app_assoc; eexists; split; reflexivity.
  - destruct pc0; try discriminate. inversion Hstep; subst; simpl.
    destruct (handle_truthy iid); simpl; rewrite <- ?app_assoc; eexists; split; reflexivity.
Qed.

Lemma run000_frames es : forall s s',
  Part000.run s es = Some s' ->
  exists l, Part000.log s' = Part000.log s ++ l /\
            forallb is_waiting_line (frames l) = true.
Proof.
  induction es as [|e es IH]; simpl; intros s s' Hrun.
  - inversion Hrun; subst. exists []. rewrite app_nil_r. auto.
  - destruct (Part000.step s e) as [s1|] eqn:Hstep; [|discriminate].
    destruct (step000_frames _ _ _ Hstep) as (l1 & Hl1 & Hf1).
    destruct (IH _ _ Hrun) as (l2 & Hl2 & Hf2).
    exists (l1 ++ l2). rewrite Hl2, Hl1, <- app_assoc. split; [reflexivity|].
    rewrite frames_app, forallb_app, Hf1, Hf2. reflexivity.
Qed.

(** X19: the second variant writes nothing but its keep-alive line: whatever
    the upstream does (an error status, a failure, chunks, the deadline),
    every frame of the stream is the line "Waiting...", so neither data nor
    any error ever reaches the client. *)
Theorem part000_only_waiting_lines imports req k es s :
  Part000.run (snd (Part000.request imports req k)) es = Some s ->
  forall f, In f (frames (Part000.log s)) -> render f = "Waiting..." +:+ JS.nl.
Proof.
  intros Hrun f Hin.
  destruct (run000_frames _ _ _ Hrun) as (l & Hl & Hf).
  rewrite Hl, frames_app in Hin. simpl in Hin.
  rewrite forallb_forall in Hf. specialize (Hf f Hin).
  destruct f; try discriminate. reflexivity.
Qed.

Lemma part000_only_waiting_lines_witness :
  exists s,
    Part000.run sample_session000
      [TimerFires heartbeat_id; FetchResolved 500 "Internal Server Error" true;
       TimerFires heartbeat_id; ReadChunk (Utf8.bytes_of_string "server error")] = Some s /\
    length (frames (Part000.log s)) = 2 /\
    forall f, In f (frames (Part000.log s)) -> render f = "Waiting..." +:+ JS.nl.
Proof.
  assert (Hrun : exists s,
             Part000.run sample_session000
               [TimerFires heartbeat_id; FetchResolved 500 "Internal Server Error" true;
                TimerFires heartbeat_id; ReadChunk (Utf8.bytes_of_string "server error")]
               = Some s /\
             length (frames (Part000.log s)) = 2)
    by (vm_compute; eexists; split; reflexivity).
  destruct Hrun as (s & Hrun & Hlen).
  exists s. split; [exact Hrun|]. split; [exact Hlen|].
  exact (part000_only_waiting_lines sample_cfg sample_req "user-key" _ s Hrun).
Defined.

(** X20: in the second variant the interval outlives the arrival of the
    response: as long as the session has not ended, also while the body is
    awaited, the heartbeat can fire and writes one more "Waiting..." line. *)
Theorem part000_ticker_runs_until_end imports req k es s :
  Part000.run (snd (Part000.request imports req k)) es = Some s ->
  settled000 s = false ->
  Part000.step s (TimerFires heartbeat_id) = Some (Part000.writer_write WaitingLine s).
Proof.
  intros HI Hs. apply run_Inv000 in HI; [|apply request_Inv000].
  destruct s as [tm lg tid iid ifc rej pc0].
  unfold Inv000, settled000 in *; simpl in *. destruct HI as (_ & _ & _ & H).
  unfold Part000.fire. simpl.
  destruct pc0; try discriminate; destruct H as (-> & _);
    rewrite lookup_two; reflexivity.
Qed.

Lemma part000_ticker_runs_until_end_witness :
  exists s s',
    Part000.run sample_session000 [FetchResolved 200 "OK" true] = Some s /\
    Part000.step s (TimerFires heartbeat_id) = Some s' /\
    frames (Part000.log s') = [WaitingLine].
Proof.
  assert (Hrun : exists s,
             Part000.run sample_session000 [FetchResolved 200 "OK" true] = Some s /\
             settled000 s = false /\
             frames (Part000.log (Part000.writer_write WaitingLine s)) = [WaitingLine])
    by (vm_compute; eexists; split; [|split]; reflexivity).
  destruct Hrun as (s & Hrun & Hs & Hfr).
  exists s, (Part000.writer_write WaitingLine s).
  split; [exact Hrun|]. split; [|exact Hfr].
  exact (part000_ticker_runs_until_end sample_cfg sample_req "user-key" _ s Hrun Hs).
Defined.

(** X21: every ending of the second variant other than the end of the body (a
    failed fetch, a response without a body, a chunk, a failed read, the
    deadline) closes the stream without writing anything, and leaves the
    task rejected: there is no [catch]. *)
Theorem part000_failures_unreported imports req k es s e :
  Part000.run (snd (Part000.request imports req k)) es = Some s ->
  terminal000 s e = true ->
  e <> ReadDone ->
  exists s',
    Part000.step s e = Some s' /\
    frames (Part000.log s') = frames (Part000.log s) /\
    closes (Part000.log s') = 1 /\
    Part000.rejected s' = true.
Proof.
  intros HI Ht Hne. apply run_Inv000 in HI; [|apply request_Inv000].
  destruct s as [tm lg tid iid ifc rej pc0].
  unfold Inv000, terminal000 in *; simpl in *. destruct HI as (-> & -> & _ & H).
  destruct pc0; destruct e; simpl in Ht; try discriminate; try congruence;
    destruct H as (-> & -> & Hcl); simpl.
  - apply Pos.eqb_eq in Ht. subst id.
    unfold Part000.fire; simpl. rewrite lookup_two. simpl.
    eexists; split; [reflexivity|]. simpl.
    rewrite !frames_app, !closes_app, Hcl. simpl. rewrite ?app_nil_r. auto.
  - apply negb_true_iff in Ht. subst. simpl.
    eexists; split; [reflexivity|]. simpl.
    rewrite !frames_app, !closes_app, Hcl. simpl. rewrite ?app_nil_r. auto.
  - eexists; split; [reflexivity|]. simpl.
    rewrite !frames_app, !closes_app, Hcl. simpl. rewrite ?app_nil_r. auto.
  - apply Pos.eqb_eq in Ht. subst id.
    unfold Part000.fire; simpl. rewrite lookup_two. simpl.
    eexists; split; [reflexivity|]. simpl.
    rewrite !frames_app, !closes_app, Hcl. simpl. rewrite ?app_nil_r. auto.
  - eexists; split; [reflexivity|]. simpl.
    rewrite !frames_app, !closes_app, Hcl. simpl. rewrite ?app_nil_r. auto.
  - eexists; split; [reflexivity|]. simpl.
    rewrite !frames_app, !closes_app, Hcl. simpl. rewrite ?app_nil_r. auto.
Qed.

Lemma part000_failures_unreported_witness :
  exists s s',
    Part000.run sample_session000 [TimerFires heartbeat_id] = Some s /\
    Part000.step s (FetchRejected "fetch failed") = Some s' /\
    frames (Part000.log s') = [WaitingLine] /\
    Part000.rejected s' = true.
Proof.
  assert (Hrun : exists s,
             Part000.run sample_session000 [TimerFires heartbeat_id] = Some s /\
             frames (Part000.log s) = [WaitingLine] /\
             terminal000 s (FetchRejected "fetch failed") = true)
    by (vm_compute; eexists; split; [|split]; reflexivity).
  destruct Hrun as (s & Hrun & Hfr & Ht).
  destruct (part000_failures_unreported sample_cfg sample_req "user-key" _ s
              (FetchRejected "fetch failed") Hrun Ht ltac:(discriminate))
    as (s' & Hstep & Hfr' & _ & Hrej).
  exists s, s'. split; [exact Hrun|]. split; [exact Hstep|].
  split; [congruence|exact Hrej].
Defined.

Lemma step000_settled s e s' :
  Inv000 s -> settled000 s = true ->
  Part000.step s e = Some s' ->
  (exists ms, e = Elapse ms) /\ s' = s.
Proof.
  destruct s as [tm lg tid iid ifc rej pc0].
  unfold Inv000, settled000; simpl. intros (_ & _ & _ & H) Hs Hstep.
  destruct pc0; try discriminate. destruct H as (-> & _).
  destruct e; simpl in Hstep; try discriminate.
  inversion Hstep; subst. eauto.
Qed.

(** X22: once the second variant has closed its stream the session is over:
    only time can pass, and the session stays as it is. *)
Theorem settled000_is_final imports req k es s es' s' :
  Part000.run (snd (Part000.request imports req k)) es = Some s ->
  settled000 s = true ->
  Part000.run s es' = Some s' ->
  s' = s /\ forall e, In e es' -> exists ms, e = Elapse ms.
Proof.
  intros HI Hs. apply run_Inv000 in HI; [|apply request_Inv000].
  induction es' as [|e es' IH]; simpl; intros Hrun.
  - inversion Hrun; subst. split; [reflexivity|]. intros e [].
  - destruct (Part000.step s e) as [s1|] eqn:Hstep; [|discriminate].
    destruct (step000_settled _ _ _ HI Hs Hstep) as (He & ->).
    destruct (IH Hrun) as (-> & Hall).
    split; [reflexivity|]. intros e0 [<-|Hin]; auto.
Qed.

Lemma settled000_is_final_witness :
  exists s s',
    Part000.run sample_session000 [FetchResolved 200 "OK" true; ReadDone] = Some s /\
    Part000.run s [Elapse 2000] = Some s' /\
    s' = s.
Proof.
  assert (Hrun : exists s,
             Part000.run sample_session000 [FetchResolved 200 "OK" true; ReadDone] = Some s /\
             settled000 s = true)
    by (vm_compute; eexists; split; reflexivity).
  destruct Hrun as (s & Hrun & Hs).
  exists s, s. split; [exact Hrun|].
  assert (Hrun' : Part000.run s [Elapse 2000] = Some s) by reflexivity.
  split; [exact Hrun'|].
  exact (proj1 (settled000_is_final sample_cfg sample_req "user-key" _ s [Elapse 2000] s
                  Hrun Hs Hrun')).
Defined.

(** ** The lines of the error frames *)

Lemma line_feeds_app s t : line_feeds (s +:+ t) = line_feeds s + line_feeds t.
Proof.
  induction s as [|c s IH]; [reflexivity|].
  change (line_feeds (String c s +:+ t))
    with ((if Ascii.eqb c "010"%char then 1 else 0) + line_feeds (s +:+ t)).
  rewrite IH. cbn [line_feeds]. lia.
Qed.

Lemma line_feeds_quote_char c : line_feeds (JS.quote_char c) = 0.
Proof. destruct c as [[] [] [] [] [] [] [] []]; reflexivity. Qed.

Lemma line_feeds_quote_chars s : line_feeds (JS.quote_chars s) = 0.
Proof.
  induction s as [|c s IH]; [reflexivity|].
  cbn [JS.quote_chars]. rewrite line_feeds_app, line_feeds_quote_char, IH. reflexivity.
Qed.

Lemma line_feeds_quote s : line_feeds (JS.quote s) = 0.
Proof.
  unfold JS.quote. rewrite !line_feeds_app, line_feeds_quote_chars. reflexivity.
Qed.

(** X18: the frame of the [catch] block is one line of data followed by one
    empty line, whatever the message (its line feeds are escaped by
    [JSON.stringify]); the frame of the response that is not ok is not: the
    indented JSON is pasted into the text with its own four line feeds, so
    the frame spans five lines before its empty line, whatever the status
    text and the body. *)
Theorem error_frame_lines st statusText errorBody message :
  line_feeds (render (StreamFetchError message)) = 2 /\
  line_feeds (render (UpstreamError st statusText errorBody)) = 6.
Proof.
  unfold render, envelope, errorEvent.
  rewrite !line_feeds_app, !line_feeds_quote.
  split; reflexivity.
Qed.

(** ** Well-formed UTF-8 passes through the relay unchanged *)

Lemma below_all_spec f n x :
  below_all f n = true -> (x < N.of_nat n)%N -> f x = true.
Proof.
  induction n as [|k IH]; intros Hall Hx; [lia|].
  cbn [below_all] in Hall. apply andb_true_iff in Hall as [Hk Hall].
  destruct (N.eq_dec x (N.of_nat k)) as [->|Hne]; [assumption|].
  apply IH; [assumption|lia].
Qed.

Lemma lor_128 l : (l < 64)%N -> N.lor 128 l = (128 + l)%N.
Proof.
  intros H. apply N.eqb_eq.
  apply (below_all_spec (fun l => N.lor 128 l =? 128 + l)%N 64); [reflexivity|exact H].
Qed.

Lemma lor_192 h : (h < 32)%N -> N.lor 192 h = (192 + h)%N.
Proof.
  intros H. apply N.eqb_eq.
  apply (below_all_spec (fun h => N.lor 192 h =? 192 + h)%N 32); [reflexivity|exact H].
Qed.

Lemma lor_224 a : (a < 16)%N -> N.lor 224 a = (224 + a)%N.
Proof.
  intros H. apply N.eqb_eq.
  apply (below_all_spec (fun a => N.lor 224 a =? 224 + a)%N 16); [reflexivity|exact H].
Qed.

Lemma lor_240 a : (a < 8)%N -> N.lor 240 a = (240 + a)%N.
Proof.
  intros H. apply N.eqb_eq.
  apply (below_all_spec (fun a => N.lor 240 a =? 240 + a)%N 8); [reflexivity|exact H].
Qed.

Lemma land_128 l : (l < 64)%N -> N.land (128 + l) 63 = l.
Proof.
  intros H. apply N.eqb_eq.
  apply (below_all_spec (fun l => N.land (128 + l) 63 =? l)%N 64); [reflexivity|exact H].
Qed.

Lemma land_192 h : (h < 32)%N -> N.land (192 + h) 31 = h.
Proof.
  intros H. apply N.eqb_eq.
  apply (below_all_spec (fun h => N.land (192 + h) 31 =? h)%N 32); [reflexivity|exact H].
Qed.

Lemma land_224 a : (a < 16)%N -> N.land (224 + a) 15 = a.
Proof.
  intros H. apply N.eqb_eq.
  apply (below_all_spec (fun a => N.land (224 + a) 15 =? a)%N 16); [reflexivity|exact H].
Qed.

Lemma land_240 a : (a < 8)%N -> N.land (240 + a) 7 = a.
Proof.
  intros H. apply N.eqb_eq.
  apply (below_all_spec (fun a => N.land (240 + a) 7 =? a)%N 8); [reflexivity|exact H].
Qed.

Lemma testbit_high y n : (y < 2 ^ 6)%N -> (6 <= n)%N -> N.testbit y n = false.
Proof.
  intros Hy Hn. rewrite <- (N.mod_small y (2 ^ 6)) by exact Hy.
  apply N.mod_pow2_bits_high. exact Hn.
Qed.

Lemma lor_shiftl6 x y : (y < 64)%N -> N.lor (N.shiftl x 6) y = (64 * x + y)%N.
Proof.
  intros Hy.
  assert (Hd : N.land (N.shiftl x 6) y = 0%N).
  { apply N.bits_inj. intros n. rewrite N.land_spec, N.bits_0.
    destruct (N.lt_ge_cases n 6) as [Hn|Hn].
    - rewrite N.shiftl_spec_low by exact Hn. reflexivity.
    - rewrite (testbit_high y n) by (try exact Hn; change (2 ^ 6)%N with 64%N; exact Hy).
      apply andb_false_r. }
  rewrite <- (N.lxor_lor _ _ Hd), <- (N.add_nocarry_lxor _ _ Hd), N.shiftl_mul_pow2.
  change (2 ^ 6)%N with 64%N. lia.
Qed.

Lemma split6 x :
  x = (64 * N.shiftr x 6 + N.land x 63)%N /\ (N.land x 63 < 64)%N.
Proof.
  rewrite N.shiftr_div_pow2. change 63%N with (N.ones 6). rewrite N.land_ones.
  change (2 ^ 6)%N with 64%N. split.
  - apply N.div_mod. discriminate.
  - apply N.mod_lt. discriminate.
Qed.

Lemma to_N_byte_of_N n : (n < 256)%N -> Byte.to_N (byte_of_N n) = n.
Proof.
  intros H. unfold byte_of_N.
  rewrite <- (N_ascii_embedding n H) at 2.
  apply Byte.to_of_N. symmetry. apply byte_of_ascii_via_N.
Qed.

Lemma utf8_run_cons d n rest :
  (n < 256)%N ->
  Utf8.run d (byte_of_N n :: rest) =
  (fst (Utf8.run (fst (Utf8.handler d n)) rest),
   snd (Utf8.handler d n) ++ snd (Utf8.run (fst (Utf8.handler d n)) rest)).
Proof.
  intros H. cbn [Utf8.run]. rewrite (to_N_byte_of_N n H).
  destruct (Utf8.handler d n) as [d1 o1]. cbn [fst snd].
  destruct (Utf8.run d1 rest) as [d2 o2]. reflexivity.
Qed.

Ltac split_ifs :=
  repeat match goal with
         | |- context [(?a <=? ?b)%N] => destruct (N.leb_spec a b); try lia
         | |- context [(?a =? ?b)%N] => destruct (N.eqb_spec a b); try lia
         end.

Lemma handler_ascii d b :
  (b <= 127)%N -> Utf8.handler (Utf8.reset d) b = (Utf8.reset d, [b]).
Proof.
  intros H. unfold Utf8.handler, Utf8.lead. cbn [Utf8.reset Utf8.bytes_needed N.eqb].
  apply N.leb_le in H. rewrite H. reflexivity.
Qed.

Lemma handler_lead2 d h :
  (2 <= h < 32)%N ->
  Utf8.handler (Utf8.reset d) (192 + h) = (Utf8.expect d 1 h 128 191, []).
Proof.
  intros H. unfold Utf8.handler, Utf8.lead. cbn [Utf8.reset Utf8.bytes_needed N.eqb].
  rewrite (land_192 h) by lia. split_ifs; reflexivity.
Qed.

Lemma handler_lead3 d a :
  (a < 16)%N ->
  Utf8.handler (Utf8.reset d) (224 + a) =
  (Utf8.expect d 2 a (if (a =? 0)%N then 160 else 128) (if (a =? 13)%N then 159 else 191), []).
Proof.
  intros H. unfold Utf8.handler, Utf8.lead. cbn [Utf8.reset Utf8.bytes_needed N.eqb].
  rewrite (land_224 a) by lia. split_ifs; reflexivity.
Qed.

Lemma handler_lead4 d a :
  (a < 5)%N ->
  Utf8.handler (Utf8.reset d) (240 + a) =
  (Utf8.expect d 3 a (if (a =? 0)%N then 144 else 128) (if (a =? 4)%N then 143 else 191), []).
Proof.
  intros H. unfold Utf8.handler, Utf8.lead. cbn [Utf8.reset Utf8.bytes_needed N.eqb].
  rewrite (land_240 a) by lia. split_ifs; reflexivity.
Qed.

(** A continuation byte inside its bounds: the last one of a sequence
    yields the scalar value, any other is added to it. *)
Lemma handler_continue x seen needed lo hi bm l :
  (needed <> 0)%N -> (l < 64)%N -> (lo <= 128 + l <= hi)%N ->
  Utf8.handler
    {| Utf8.code_point := x; Utf8.bytes_seen := seen; Utf8.bytes_needed := needed;
       Utf8.lower_boundary := lo; Utf8.upper_boundary := hi; Utf8.bom_seen := bm |}
    (128 + l) =
  if (seen + 1 =? needed)%N
  then ({| Utf8.code_point := 0; Utf8.bytes_seen := 0; Utf8.bytes_needed := 0;
           Utf8.lower_boundary := 128; Utf8.upper_boundary := 191; Utf8.bom_seen := bm |},
        [(64 * x + l)%N])
  else ({| Utf8.code_point := 64 * x + l; Utf8.bytes_seen := seen + 1;
           Utf8.bytes_needed := needed;
           Utf8.lower_boundary := 128; Utf8.upper_boundary := 191; Utf8.bom_seen := bm |},
        []).
Proof.
  intros Hn Hl Hb. unfold Utf8.handler.
  cbn [Utf8.bytes_needed Utf8.lower_boundary Utf8.upper_boundary Utf8.code_point
       Utf8.bytes_seen Utf8.bom_seen Utf8.reset].
  rewrite (land_128 l Hl), (lor_shiftl6 x l Hl).
  destruct (N.eqb_spec needed 0) as [?|_]; [contradiction|].
  destruct (N.leb_spec lo (128 + l)); [|lia].
  destruct (N.leb_spec (128 + l) hi); [|lia].
  cbn [andb negb]. reflexivity.
Qed.

Lemma run_two d h l rest :
  (2 <= h < 32)%N -> (l < 64)%N ->
  Utf8.run (Utf8.reset d) (byte_of_N (192 + h) :: byte_of_N (128 + l) :: rest) =
  (fst (Utf8.run (Utf8.reset d) rest), (64 * h + l)%N :: snd (Utf8.run (Utf8.reset d) rest)).
Proof.
  intros Hh Hl.
  rewrite utf8_run_cons, handler_lead2 by lia. cbn [fst snd app].
  rewrite utf8_run_cons by lia. unfold Utf8.expect.
  rewrite handler_continue by lia. reflexivity.
Qed.

Lemma run_three d a b c rest :
  (a < 16)%N -> (b < 64)%N -> (c < 64)%N ->
  (a = 0 -> 32 <= b)%N -> (a = 13 -> b < 32)%N ->
  Utf8.run (Utf8.reset d)
    (byte_of_N (224 + a) :: byte_of_N (128 + b) :: byte_of_N (128 + c) :: rest) =
  (fst (Utf8.run (Utf8.reset d) rest),
   (64 * (64 * a + b) + c)%N :: snd (Utf8.run (Utf8.reset d) rest)).
Proof.
  intros Ha Hb Hc H0 H13.
  rewrite utf8_run_cons, handler_lead3 by lia. cbn [fst snd app].
  rewrite utf8_run_cons by lia. unfold Utf8.expect.
  rewrite handler_continue by (split_ifs; lia).
  change (0 + 1 =? 2)%N with false. cbn [fst snd app].
  rewrite utf8_run_cons by lia.
  rewrite handler_continue by lia. reflexivity.
Qed.

Lemma run_four d a b c e rest :
  (a < 5)%N -> (b < 64)%N -> (c < 64)%N -> (e < 64)%N ->
  (a = 0 -> 16 <= b)%N -> (a = 4 -> b < 16)%N ->
  Utf8.run (Utf8.reset d)
    (byte_of_N (240 + a) :: byte_of_N (128 + b) :: byte_of_N (128 + c)
       :: byte_of_N (128 + e) :: rest) =
  (fst (Utf8.run (Utf8.reset d) rest),
   (64 * (64 * (64 * a + b) + c) + e)%N :: snd (Utf8.run (Utf8.reset d) rest)).
Proof.
  intros Ha Hb Hc He H0 H4.
  rewrite utf8_run_cons, handler_lead4 by lia. cbn [fst snd app].
  rewrite utf8_run_cons by lia. unfold Utf8.expect.
  rewrite handler_continue by (split_ifs; lia).
  change (0 + 1 =? 3)%N with false. cbn [fst snd app].
  rewrite utf8_run_cons by lia.
  rewrite handler_continue by lia.
  change (0 + 1 + 1 =? 3)%N with false. cbn [fst snd app].
  rewrite utf8_run_cons by lia.
  rewrite handler_continue by lia. reflexivity.
Qed.

(** The encoding of a scalar value decodes to that value, and leaves the
    decoder ready for the next one. *)
Lemma run_encode_cp d cp rest :
  is_scalar cp = true ->
  Utf8.run (Utf8.reset d) (map byte_of_N (Utf8.encode_cp cp) ++ rest) =
  (fst (Utf8.run (Utf8.reset d) rest), cp :: snd (Utf8.run (Utf8.reset d) rest)).
Proof.
  unfold is_scalar. intros Hs.
  apply andb_true_iff in Hs as [Hsur Hmax]. apply N.leb_le in Hmax.
  assert (Hsur' : (cp < 55296 \/ 57343 < cp)%N).
  { apply orb_true_iff in Hsur as [H|H]; apply N.ltb_lt in H; auto. }
  clear Hsur.
  destruct (split6 cp) as [E1 L1].
  destruct (split6 (N.shiftr cp 6)) as [E2 L2].
  destruct (split6 (N.shiftr (N.shiftr cp 6) 6)) as [E3 L3].
  unfold Utf8.encode_cp.
  replace (N.shiftr cp 12) with (N.shiftr (N.shiftr cp 6) 6)
    by (rewrite N.shiftr_shiftr; reflexivity).
  replace (N.shiftr cp 18) with (N.shiftr (N.shiftr (N.shiftr cp 6) 6) 6)
    by (rewrite !N.shiftr_shiftr; reflexivity).
  set (q1 := N.shiftr cp 6) in *. set (c1 := N.land cp 63) in *.
  set (q2 := N.shiftr q1 6) in *. set (c2 := N.land q1 63) in *.
  set (q3 := N.shiftr q2 6) in *. set (c3 := N.land q2 63) in *.
  destruct (N.leb_spec cp 127) as [H1|H1].
  { cbn [map app]. rewrite utf8_run_cons, handler_ascii by lia. reflexivity. }
  destruct (N.leb_spec cp 2047) as [H2|H2].
  { cbn [map app]. rewrite lor_192, lor_128 by lia.
    rewrite run_two by lia. rewrite <- E1. reflexivity. }
  destruct (N.leb_spec cp 65535) as [H3|H3].
  { cbn [map app]. rewrite lor_224, !lor_128 by lia.
    assert (q2 < 16)%N by lia.
    rewrite run_three by lia.
    replace (64 * (64 * q2 + c2) + c1)%N with cp by lia. reflexivity. }
  cbn [map app]. rewrite lor_240, !lor_128 by lia.
  rewrite run_four by lia.
  replace (64 * (64 * (64 * q3 + c3) + c2) + c1)%N with cp by lia. reflexivity.
Qed.

Lemma run_encode d cps :
  forallb is_scalar cps = true ->
  Utf8.run (Utf8.reset d) (map byte_of_N (concat (map Utf8.encode_cp cps))) =
  (Utf8.reset d, cps).
Proof.
  induction cps as [|cp cps IH]; intros Hs; [reflexivity|].
  cbn [forallb] in Hs. apply andb_true_iff in Hs as [Hcp Hs].
  cbn [map concat]. rewrite map_app, run_encode_cp by exact Hcp.
  rewrite (IH Hs). reflexivity.
Qed.

Lemma bytes_of_encode cps :
  Utf8.bytes_of_string (Utf8.encode cps) = map byte_of_N (concat (map Utf8.encode_cp cps)).
Proof.
  unfold Utf8.bytes_of_string, Utf8.encode.
  rewrite list_ascii_of_string_of_list_ascii, map_map. reflexivity.
Qed.

(** Decoding and re-encoding the encoding of a text gives the text back,
    less a byte-order mark at its start. *)
Lemma transcode_encode cps :
  forallb is_scalar cps = true ->
  snd (Utf8.transcode Utf8.fresh (Utf8.bytes_of_string (Utf8.encode cps))) =
  Utf8.encode (without_bom cps).
Proof.
  intros Hs. unfold Utf8.transcode. rewrite bytes_of_encode.
  change Utf8.fresh with (Utf8.reset Utf8.fresh). rewrite (run_encode _ _ Hs).
  destruct cps as [|cp r]; [reflexivity|].
  cbn [Utf8.serialize Utf8.reset Utf8.fresh Utf8.bom_seen without_bom snd].
  reflexivity.
Qed.

(** X23: when the bytes the upstream has sent so far are the UTF-8 encoding
    of a text (a sequence of scalar values), the bytes [google.ts] has
    relayed are, end to end, that encoding again, wherever the chunks were
    cut; only a byte-order mark at the very start of the body is dropped,
    as [TextDecoder] does. *)
Theorem valid_utf8_relayed_verbatim imports req k now es s cps :
  Google.run imports (snd (Google.request imports req k now)) es = Some s ->
  forallb is_scalar cps = true ->
  concat (chunks_read es) = Utf8.bytes_of_string (Utf8.encode cps) ->
  joined (relayed_texts (Google.log s)) = Utf8.encode (without_bom cps).
Proof.
  intros Hrun Hs Hc.
  rewrite (joined_relayed _ _ _ _ _ _ Hrun), Hc. apply transcode_encode, Hs.
Qed.

Lemma valid_utf8_relayed_verbatim_witness :
  exists s,
    Google.run sample_cfg sample_session
      [FetchResolved 200 "OK" true;
       ReadChunk [x48; xe4; xbd]%byte; ReadChunk [xa0; xf0; x9f]%byte;
       ReadChunk [x98; x80]%byte] = Some s /\
    relayed_texts (Google.log s) =
      ["H"; Utf8.string_of_bytes [xe4; xbd; xa0]%byte;
       Utf8.string_of_bytes [xf0; x9f; x98; x80]%byte] /\
    joined (relayed_texts (Google.log s)) =
      Utf8.string_of_bytes [x48; xe4; xbd; xa0; xf0; x9f; x98; x80]%byte.
Proof.
  assert (Hrun : exists s,
             Google.run sample_cfg sample_session
               [FetchResolved 200 "OK" true;
                ReadChunk [x48; xe4; xbd]%byte; ReadChunk [xa0; xf0; x9f]%byte;
                ReadChunk [x98; x80]%byte] = Some s /\
             relayed_texts (Google.log s) =
               ["H"; Utf8.string_of_bytes [xe4; xbd; xa0]%byte;
                Utf8.string_of_bytes [xf0; x9f; x98; x80]%byte])
    by (vm_compute; eexists; split; reflexivity).
  destruct Hrun as (s & Hrun & Hrel).
  exists s. split; [exact Hrun|]. split; [exact Hrel|].
  exact (valid_utf8_relayed_verbatim sample_cfg sample_req "user-key" 0 _ s
           [72; 20320; 128512]%N Hrun eq_refl eq_refl).
Defined.
